(** * A shallow embedding of the library system (package [library])

    The Go package keeps a catalog of books, a set of accounts and two
    indices of live checkouts inside one [Library] value guarded by a
    readers-writer lock.  Every method runs under that lock from start to
    end, so a method is modelled as a function from the store before the
    call to the returned error and the store after the call.

    Conventions.
    - Go's [int] is the 64-bit two's complement integer: values are [Z],
      and every arithmetic result goes through [wrap].
    - A Go [map[int]T] is a [gmap Z T]; reading a missing key of a map of
      slices gives the nil slice, modelled by the empty list.
    - A [*Book] stored in the catalog is never shared between two keys
      (each one is allocated by [AddBook]), so an assignment through the
      pointer is an update of the map entry.  [*Checkout] values are never
      written after their creation, so they are kept by value.
    - An [error] is kept structured: the sentinel values of the package,
      or the format string of [fmt.Errorf] with its arguments. *)

From Stdlib Require Import Ascii String.
From stdpp Require Import gmap strings list fin_maps.

Open Scope Z_scope.

(** ** Machine integers *)

Definition int_bits : Z := 64.
Definition min_int : Z := - 2 ^ (int_bits - 1).
Definition max_int : Z := 2 ^ (int_bits - 1) - 1.

(** Two's complement wrap-around of an arithmetic result. *)
Definition wrap (z : Z) : Z :=
  (z + 2 ^ (int_bits - 1)) mod 2 ^ int_bits - 2 ^ (int_bits - 1).

Definition in_range (z : Z) : Prop := min_int ≤ z ≤ max_int.

(** The test that an integer literal fits an [int]. *)
Definition fits_int (z : Z) : bool := (min_int <=? z) && (z <=? max_int).

(** [len] of a slice, as a Go [int]. *)
Definition len {A} (s : list A) : Z := Z.of_nat (length s).

(** ** JSON documents

    [encoding/json] hands [UnmarshalJSON] the text of one syntactically
    valid JSON value, and [MarshalJSON] returns such a text.  The embedding
    works on the value the text denotes: an object keeps its members in
    the order of the text, duplicates included; a number is either an
    integer literal or another literal (fraction or exponent), kept as
    written; a string is the decoded text. *)

#[local] Set Warnings "-register-all".

Inductive json :=
| JNull
| JBool (b : bool)
| JInt (z : Z)
| JFrac (lit : string)
| JString (s : string)
| JArray (elems : list json)
| JObject (members : list (string * json)).

(** ** Errors *)

Inductive fmtarg :=
| ArgS (s : string)
| ArgD (z : Z)
| ArgT (type : string).

Inductive error :=
| ErrBookNotExist
| ErrAccountNotExist
| ErrCheckoutNotExist
| Errorf (format : string) (args : list fmtarg)
| Wrapf (format : string) (inner : error)
| UnmarshalTypeError (value : json) (field : string)
| SyntaxError (msg : string).

(** ** Records of the store *)

Record Account := { Account_ID : Z; Account_Name : string }.

Record Book := { Book_ID : Z; Book_Name : string; Book_Count : Z }.

Record Checkout := { Checkout_BookID : Z; Checkout_AccountID : Z }.

Global Instance Checkout_eq_dec : EqDecision Checkout.
Proof. solve_decision. Defined.

Record Library := {
  books : gmap Z Book;
  accounts : gmap Z Account;
  checkoutsByAccount : gmap Z (list Checkout);
  checkoutsByBook : gmap Z (list Checkout)
}.

(** [New]: the four maps are made empty. *)
Definition New : Library :=
  {| books := ∅; accounts := ∅; checkoutsByAccount := ∅; checkoutsByBook := ∅ |}.

(** Reading [m[k]] in a map of slices: the nil slice when [k] is absent. *)
Definition index_get (m : gmap Z (list Checkout)) (k : Z) : list Checkout :=
  default [] (m !! k).

Definition set_books (l : Library) (bs : gmap Z Book) : Library :=
  {| books := bs; accounts := accounts l;
     checkoutsByAccount := checkoutsByAccount l;
     checkoutsByBook := checkoutsByBook l |}.

Definition set_accounts (l : Library) (acs : gmap Z Account) : Library :=
  {| books := books l; accounts := acs;
     checkoutsByAccount := checkoutsByAccount l;
     checkoutsByBook := checkoutsByBook l |}.

Definition set_checkoutsByAccount (l : Library) (m : gmap Z (list Checkout)) : Library :=
  {| books := books l; accounts := accounts l;
     checkoutsByAccount := m;
     checkoutsByBook := checkoutsByBook l |}.

Definition set_checkoutsByBook (l : Library) (m : gmap Z (list Checkout)) : Library :=
  {| books := books l; accounts := accounts l;
     checkoutsByAccount := checkoutsByAccount l;
     checkoutsByBook := m |}.

(** The result of a method: the returned error ([None] is Go's [nil]) and
    the store after the call. *)
Definition result : Type := option error * Library.

(** ** Methods of [Library] *)

Definition AddBook (id : Z) (name : string) (count : Z) (l : Library) : result :=
  match books l !! id with
  | Some _ => (Some (Errorf "book already exists" []), l)
  | None =>
      if count <? 0 then (Some (Errorf "cannot add negative copies" []), l)
      else
        (None,
         set_books l
           (<[id := {| Book_ID := id; Book_Name := name; Book_Count := count |}]> (books l)))
  end.

Definition AddCopies (id count : Z) (l : Library) : result :=
  match books l !! id with
  | None => (Some ErrBookNotExist, l)
  | Some book =>
      if count <? 0 then (Some (Errorf "cannot add negative copies" []), l)
      else
        (None,
         set_books l
           (<[id := {| Book_ID := Book_ID book; Book_Name := Book_Name book;
                       Book_Count := wrap (Book_Count book + count) |}]> (books l)))
  end.

Definition RemoveCopies (id count : Z) (l : Library) : result :=
  match books l !! id with
  | None => (Some ErrBookNotExist, l)
  | Some book =>
      if count <? 0 then (Some (Errorf "cannot remove negative copies" []), l)
      else if Book_Count book <? count then
        (Some (Errorf "cannot remove more copies than exist" []), l)
      else
        let available :=
          wrap (Book_Count book - len (index_get (checkoutsByBook l) (Book_ID book))) in
        if available <? count then
          (Some (Errorf
             "cannot remove more copies of %s (%d) than are available to check out (%d)"
             [ArgS (Book_Name book); ArgD (Book_ID book); ArgD available]), l)
        else
          (None,
           set_books l
             (<[id := {| Book_ID := Book_ID book; Book_Name := Book_Name book;
                         Book_Count := wrap (Book_Count book - count) |}]> (books l)))
  end.

Definition CreateAccount (id : Z) (name : string) (l : Library) : result :=
  match accounts l !! id with
  | Some _ => (Some (Errorf "account already exists" []), l)
  | None =>
      (None,
       set_accounts l (<[id := {| Account_ID := id; Account_Name := name |}]> (accounts l)))
  end.

(** The test of the loop in [CheckoutBook] and the closure [matchCheckout]
    of [ReturnBook]. *)
Definition matchCheckout (account : Account) (book : Book) (checkout : Checkout) : bool :=
  (Checkout_AccountID checkout =? Account_ID account)
  && (Checkout_BookID checkout =? Book_ID book).

Definition CheckoutBook (accountID bookID : Z) (l : Library) : result :=
  match accounts l !! accountID with
  | None => (Some ErrAccountNotExist, l)
  | Some account =>
      match books l !! bookID with
      | None => (Some ErrBookNotExist, l)
      | Some book =>
          let checkouts := index_get (checkoutsByAccount l) (Account_ID account) in
          if 4 <=? len checkouts then
            (Some (Errorf "%s (%d) cannot checkout more than 4 books at a time"
               [ArgS (Account_Name account); ArgD (Account_ID account)]), l)
          else if existsb (matchCheckout account book) checkouts then
            (Some (Errorf "%s (%d) cannot checkout more than one copy of %s (%d)"
               [ArgS (Account_Name account); ArgD (Account_ID account);
                ArgS (Book_Name book); ArgD (Book_ID book)]), l)
          else
            let checkout :=
              {| Checkout_BookID := Book_ID book;
                 Checkout_AccountID := Account_ID account |} in
            let l1 :=
              set_checkoutsByAccount l
                (<[Account_ID account :=
                     index_get (checkoutsByAccount l) (Account_ID account) ++ [checkout]]>
                   (checkoutsByAccount l)) in
            let l2 :=
              set_checkoutsByBook l1
                (<[Book_ID book :=
                     index_get (checkoutsByBook l1) (Book_ID book) ++ [checkout]]>
                   (checkoutsByBook l1)) in
            (None, l2)
      end
  end.

(** [slices.DeleteFunc s del]: the elements for which [del] is false, in
    their order. *)
Definition DeleteFunc {A} (s : list A) (del : A → bool) : list A :=
  List.filter (λ x, negb (del x)) s.

(** [slices.ContainsFunc]. *)
Definition ContainsFunc {A} (s : list A) (f : A → bool) : bool := existsb f s.

Definition ReturnBook (accountID bookID : Z) (l : Library) : result :=
  match accounts l !! accountID with
  | None => (Some ErrAccountNotExist, l)
  | Some account =>
      match books l !! bookID with
      | None => (Some ErrBookNotExist, l)
      | Some book =>
          if negb (ContainsFunc (index_get (checkoutsByAccount l) (Account_ID account))
                     (matchCheckout account book))
          then (Some ErrCheckoutNotExist, l)
          else
            let l1 :=
              set_checkoutsByAccount l
                (<[Account_ID account :=
                     DeleteFunc (index_get (checkoutsByAccount l) (Account_ID account))
                       (matchCheckout account book)]>
                   (checkoutsByAccount l)) in
            let l2 :=
              set_checkoutsByBook l1
                (<[Book_ID book :=
                     DeleteFunc (index_get (checkoutsByBook l1) (Book_ID book))
                       (matchCheckout account book)]>
                   (checkoutsByBook l1)) in
            (None, l2)
      end
  end.

(** Read accessors.  The methods [Account] and [Book] of the source are
    [GetAccount] and [GetBook] here, the record types having their names. *)
Definition GetAccount (id : Z) (l : Library) : option Account := accounts l !! id.
Definition GetBook (id : Z) (l : Library) : option Book := books l !! id.
Definition CheckoutsByAccount (id : Z) (l : Library) : list Checkout :=
  index_get (checkoutsByAccount l) id.
Definition CheckoutsByBook (id : Z) (l : Library) : list Checkout :=
  index_get (checkoutsByBook l) id.

(** ** Commands

    The eight argument structs of the source.  [Invocation.Command] has
    type [any]: it is nil in a zero [Invocation], a pointer to one of the
    eight structs after decoding, and the struct value [CreateAccount{}]
    once [Exec] has run a CREATE_ACCOUNT command. *)

Module Cmd.
Inductive t :=
| AddBook (ID : Z) (Name : string) (Count : Z)
| AddCopies (ID : Z) (Count : Z)
| RemoveCopies (ID : Z) (Count : Z)
| CreateAccount (ID : Z) (Name : string)
| CheckoutBook (AccountID : Z) (BookID : Z)
| ReturnBook (AccountID : Z) (BookID : Z)
| PrintCatalog
| PrintAccounts.
End Cmd.

Inductive any :=
| Nil
| Ptr (cmd : Cmd.t)
| CreateAccountValue.

(** What the verb [%T] prints for a value that is not one of the eight
    pointers. *)
Definition type_name (a : any) : string :=
  match a with
  | Nil => "<nil>"
  | CreateAccountValue => "library.CreateAccount"
  | Ptr _ => "*library"
  end.

(** [Command]: the name and the raw text of the arguments ([None] is the
    empty [json.RawMessage]). *)
Record Command := { Name : string; Arguments : option json }.

(** [Invocation].  The field [Command] is [Command_] here, [Command]
    being the name of the struct above.  The narration [Output] is left
    out: no property below reads it. *)
Record Invocation := { RawCommand : Command; Command_ : any }.

Definition zero_Command : Command := {| Name := ""; Arguments := None |}.
Definition zero_Invocation : Invocation :=
  {| RawCommand := zero_Command; Command_ := Nil |}.

(** ** Decoding into structs, as [encoding/json] does it

    [json.Unmarshal] into a struct: a JSON null leaves the struct as it
    is; an object is read member by member in its order, each member
    going to the field whose JSON name folds to the same name as the key
    (a key with no field is skipped); any other value is a type error.
    A type error inside a member does not stop the decoding: the first
    one is kept and returned at the end. *)

Definition upper (c : ascii) : ascii :=
  let n := N_of_ascii c in
  if ((97 <=? n) && (n <=? 122))%N then ascii_of_N (n - 32) else c.

(** [foldName]: ASCII letters go to upper case, and so do the two runes
    outside ASCII that fold to an ASCII letter, U+017F (bytes C5 BF, to S)
    and U+212A (bytes E2 84 AA, to K). *)
Fixpoint foldName (s : string) : string :=
  match s with
  | EmptyString => EmptyString
  | String c1 s1 =>
      match s1 with
      | String c2 s2 =>
          if ((N_of_ascii c1 =? 197) && (N_of_ascii c2 =? 191))%N
          then String "S" (foldName s2)
          else
            match s2 with
            | String c3 s3 =>
                if ((N_of_ascii c1 =? 226) && (N_of_ascii c2 =? 132)
                    && (N_of_ascii c3 =? 170))%N
                then String "K" (foldName s3)
                else String (upper c1) (foldName s1)
            | EmptyString => String (upper c1) (foldName s1)
            end
      | EmptyString => String (upper c1) EmptyString
      end
  end.

Section Decode.
Context {T : Type}.

(** What a member's value does to the struct: the new struct, and the
    type error if the value does not fit the field. *)
Definition setter : Type := json → T → T * option error.

Definition keep_first (saved new : option error) : option error :=
  match saved with Some e => Some e | None => new end.

Fixpoint find_field (fields : list (string * setter)) (key : string) : option setter :=
  match fields with
  | [] => None
  | (name, set) :: rest =>
      if String.eqb (foldName name) (foldName key) then Some set
      else find_field rest key
  end.

Fixpoint decode_members (fields : list (string * setter))
    (members : list (string * json)) (v : T) (saved : option error) : T * option error :=
  match members with
  | [] => (v, saved)
  | (key, value) :: rest =>
      match find_field fields key with
      | None => decode_members fields rest v saved
      | Some set =>
          let '(v', err) := set value v in
          decode_members fields rest v' (keep_first saved err)
      end
  end.

Definition decode_struct (type : string) (fields : list (string * setter))
    (doc : json) (v : T) : T * option error :=
  match doc with
  | JNull => (v, None)
  | JObject members => decode_members fields members v None
  | _ => (v, Some (UnmarshalTypeError doc type))
  end.

(** A field of type [int]. *)
Definition int_field (field : string) (set : Z → T → T) : setter :=
  λ value v,
    match value with
    | JNull => (v, None)
    | JInt z =>
        if fits_int z then (set z v, None)
        else (v, Some (UnmarshalTypeError value field))
    | _ => (v, Some (UnmarshalTypeError value field))
    end.

(** A field of type [string]. *)
Definition string_field (field : string) (set : string → T → T) : setter :=
  λ value v,
    match value with
    | JNull => (v, None)
    | JString s => (set s v, None)
    | _ => (v, Some (UnmarshalTypeError value field))
    end.

(** A field of type [json.RawMessage]: the text of the value, whatever
    it is, null included. *)
Definition raw_field (set : option json → T → T) : setter :=
  λ value v, (set (Some value) v, None).
End Decode.

(** [json.Unmarshal(bs, &inv.RawCommand)]. *)
Definition unmarshal_Command (bs : json) (c : Command) : Command * option error :=
  decode_struct "Command"
    [("name", string_field "Command.name"
                (λ s c, {| Name := s; Arguments := Arguments c |}));
     ("arguments", raw_field (λ r c, {| Name := Name c; Arguments := r |}))]
    bs c.

(** The field tables of the argument structs, from their [json] tags. *)
Definition AddBook_fields : list (string * @setter (Z * string * Z)) :=
  [("id", int_field "AddBook.id" (λ z '(_, n, c), (z, n, c)));
   ("name", string_field "AddBook.name" (λ s '(i, _, c), (i, s, c)));
   ("count", int_field "AddBook.count" (λ z '(i, n, _), (i, n, z)))].

Definition Copies_fields (type : string) : list (string * @setter (Z * Z)) :=
  [("id", int_field (type +:+ ".id") (λ z '(_, c), (z, c)));
   ("count", int_field (type +:+ ".count") (λ z '(i, _), (i, z)))].

Definition CreateAccount_fields : list (string * @setter (Z * string)) :=
  [("id", int_field "CreateAccount.id" (λ z '(_, n), (z, n)));
   ("name", string_field "CreateAccount.name" (λ s '(i, _), (i, s)))].

Definition Pair_fields (type : string) : list (string * @setter (Z * Z)) :=
  [("accountId", int_field (type +:+ ".accountId") (λ z '(_, b), (z, b)));
   ("bookId", int_field (type +:+ ".bookId") (λ z '(a, _), (a, z)))].

(** [json.Unmarshal(rbs, inv.Command)], [inv.Command] pointing to a zero
    struct of the type chosen by the name.  An empty [rbs] is not a JSON
    text. *)
Definition unmarshal_arguments (rbs : option json) (cmd : Cmd.t) : Cmd.t * option error :=
  match rbs with
  | None => (cmd, Some (SyntaxError "unexpected end of JSON input"))
  | Some doc =>
      match cmd with
      | Cmd.AddBook i n c =>
          let '((i', n', c'), err) := decode_struct "AddBook" AddBook_fields doc (i, n, c) in
          (Cmd.AddBook i' n' c', err)
      | Cmd.AddCopies i c =>
          let '((i', c'), err) :=
            decode_struct "AddCopies" (Copies_fields "AddCopies") doc (i, c) in
          (Cmd.AddCopies i' c', err)
      | Cmd.RemoveCopies i c =>
          let '((i', c'), err) :=
            decode_struct "RemoveCopies" (Copies_fields "RemoveCopies") doc (i, c) in
          (Cmd.RemoveCopies i' c', err)
      | Cmd.CreateAccount i n =>
          let '((i', n'), err) :=
            decode_struct "CreateAccount" CreateAccount_fields doc (i, n) in
          (Cmd.CreateAccount i' n', err)
      | Cmd.CheckoutBook a b =>
          let '((a', b'), err) :=
            decode_struct "CheckoutBook" (Pair_fields "CheckoutBook") doc (a, b) in
          (Cmd.CheckoutBook a' b', err)
      | Cmd.ReturnBook a b =>
          let '((a', b'), err) :=
            decode_struct "ReturnBook" (Pair_fields "ReturnBook") doc (a, b) in
          (Cmd.ReturnBook a' b', err)
      | Cmd.PrintCatalog => (cmd, (decode_struct "PrintCatalog" [] doc tt).2)
      | Cmd.PrintAccounts => (cmd, (decode_struct "PrintAccounts" [] doc tt).2)
      end
  end.

(** ** [Invocation.UnmarshalJSON] *)

Definition with_RawCommand (inv : Invocation) (c : Command) : Invocation :=
  {| RawCommand := c; Command_ := Command_ inv |}.

Definition with_Command (inv : Invocation) (a : any) : Invocation :=
  {| RawCommand := RawCommand inv; Command_ := a |}.

(** Decoding the arguments into the zero struct [zero] that [inv.Command]
    has just been pointed to. *)
Definition decode_into (inv : Invocation) (zero : Cmd.t) : option error * Invocation :=
  let '(cmd, err) := unmarshal_arguments (Arguments (RawCommand inv)) zero in
  (err, with_Command inv (Ptr cmd)).

Definition UnmarshalJSON (bs : json) (inv : Invocation) : option error * Invocation :=
  let '(raw, err) := unmarshal_Command bs (RawCommand inv) in
  let inv := with_RawCommand inv raw in
  match err with
  | Some e => (Some e, inv)
  | None =>
      let name := Name (RawCommand inv) in
      if String.eqb name "ADD_BOOK" then decode_into inv (Cmd.AddBook 0 "" 0)
      else if String.eqb name "ADD_COPIES" then decode_into inv (Cmd.AddCopies 0 0)
      else if String.eqb name "REMOVE_COPIES" then decode_into inv (Cmd.RemoveCopies 0 0)
      else if String.eqb name "CREATE_ACCOUNT" then decode_into inv (Cmd.CreateAccount 0 "")
      else if String.eqb name "CHECKOUT_BOOK" then decode_into inv (Cmd.CheckoutBook 0 0)
      else if String.eqb name "RETURN_BOOK" then decode_into inv (Cmd.ReturnBook 0 0)
      else if String.eqb name "PRINT_CATALOG" then
        (None, with_Command inv (Ptr Cmd.PrintCatalog))
      else if String.eqb name "PRINT_ACCOUNTS" then
        (None, with_Command inv (Ptr Cmd.PrintAccounts))
      else (Some (Errorf "unmarshal: unknown command type, %s" [ArgS name]), inv)
  end.

(** ** [Invocation.MarshalJSON] *)

(** [json.Marshal] of an argument struct: its fields in declaration order,
    under their [json] tags. *)
Definition marshal_arguments (cmd : Cmd.t) : json :=
  match cmd with
  | Cmd.AddBook i n c => JObject [("id", JInt i); ("name", JString n); ("count", JInt c)]
  | Cmd.AddCopies i c => JObject [("id", JInt i); ("count", JInt c)]
  | Cmd.RemoveCopies i c => JObject [("id", JInt i); ("count", JInt c)]
  | Cmd.CreateAccount i n => JObject [("id", JInt i); ("name", JString n)]
  | Cmd.CheckoutBook a b => JObject [("accountId", JInt a); ("bookId", JInt b)]
  | Cmd.ReturnBook a b => JObject [("accountId", JInt a); ("bookId", JInt b)]
  | Cmd.PrintCatalog => JObject []
  | Cmd.PrintAccounts => JObject []
  end.

Definition command_name (cmd : Cmd.t) : string :=
  match cmd with
  | Cmd.AddBook _ _ _ => "ADD_BOOK"
  | Cmd.AddCopies _ _ => "ADD_COPIES"
  | Cmd.RemoveCopies _ _ => "REMOVE_COPIES"
  | Cmd.CreateAccount _ _ => "CREATE_ACCOUNT"
  | Cmd.CheckoutBook _ _ => "CHECKOUT_BOOK"
  | Cmd.ReturnBook _ _ => "RETURN_BOOK"
  | Cmd.PrintCatalog => "PRINT_CATALOG"
  | Cmd.PrintAccounts => "PRINT_ACCOUNTS"
  end.

(** [json.Marshal(inv.RawCommand)]: the empty raw message is written as
    null. *)
Definition marshal_Command (c : Command) : json :=
  JObject [("name", JString (Name c)); ("arguments", default JNull (Arguments c))].

Definition MarshalJSON (inv : Invocation) : (json + error) * Invocation :=
  match Command_ inv with
  | Ptr cmd =>
      let inv := with_RawCommand inv {| Name := command_name cmd; Arguments := None |} in
      let bs := marshal_arguments cmd in
      let inv :=
        with_RawCommand inv {| Name := Name (RawCommand inv); Arguments := Some bs |} in
      (inl (marshal_Command (RawCommand inv)), inv)
  | other => (inr (Errorf "marshal: unknown command type, %T" [ArgT (type_name other)]), inv)
  end.

(** ** [Invocation.Exec]

    The dispatch to the store.  The print commands only read the store.
    A CREATE_ACCOUNT command replaces [inv.Command] by the struct value
    [CreateAccount{}] before it calls the store. *)
Definition Exec (inv : Invocation) (l : Library) : option error * (Invocation * Library) :=
  match Command_ inv with
  | Ptr (Cmd.AddBook i n c) => let '(err, l') := AddBook i n c l in (err, (inv, l'))
  | Ptr (Cmd.AddCopies i c) => let '(err, l') := AddCopies i c l in (err, (inv, l'))
  | Ptr (Cmd.RemoveCopies i c) => let '(err, l') := RemoveCopies i c l in (err, (inv, l'))
  | Ptr (Cmd.CreateAccount i n) =>
      let inv := with_Command inv CreateAccountValue in
      let '(err, l') := CreateAccount i n l in (err, (inv, l'))
  | Ptr (Cmd.CheckoutBook a b) => let '(err, l') := CheckoutBook a b l in (err, (inv, l'))
  | Ptr (Cmd.ReturnBook a b) => let '(err, l') := ReturnBook a b l in (err, (inv, l'))
  | Ptr Cmd.PrintCatalog => (None, (inv, l))
  | Ptr Cmd.PrintAccounts => (None, (inv, l))
  | other =>
      (Some (Errorf "exec: unknown command type, %T" [ArgT (type_name other)]), (inv, l))
  end.

(** ** [Export] and [Import]

    [Export] ranges over three Go maps, whose iteration order is not
    fixed: the order is a parameter, any arrangement of the map's values.
    The writer is a buffer of the records written, one per line. *)

Definition encode_line (cmd : Cmd.t) : json + error :=
  (MarshalJSON {| RawCommand := zero_Command; Command_ := Ptr cmd |}).1.

Fixpoint encode_all (cmds : list Cmd.t) : option error * list json :=
  match cmds with
  | [] => (None, [])
  | cmd :: rest =>
      match encode_line cmd with
      | inr e => (Some (Wrapf "failed to write library state, %w" e), [])
      | inl line =>
          let '(err, lines) := encode_all rest in (err, line :: lines)
      end
  end.

Definition export_commands (bs : list Book) (acs : list Account)
    (cos : list (list Checkout)) : list Cmd.t :=
  map (λ book, Cmd.AddBook (Book_ID book) (Book_Name book) (Book_Count book)) bs
  ++ map (λ account, Cmd.CreateAccount (Account_ID account) (Account_Name account)) acs
  ++ map (λ checkout,
            Cmd.CheckoutBook (Checkout_AccountID checkout) (Checkout_BookID checkout))
       (concat cos).

Definition Export_in (bs : list Book) (acs : list Account) (cos : list (list Checkout))
  : option error * list json :=
  encode_all (export_commands bs acs cos).


(** [Export] with one iteration order, the one of [map_to_list]. *)
Definition Export (l : Library) : option error * list json :=
  Export_in (map_to_list (books l)).*2 (map_to_list (accounts l)).*2
    (map_to_list (checkoutsByAccount l)).*2.

(** [Import]: the reader is the sequence of JSON values of the stream.
    Each one is decoded into a fresh [Invocation] and executed; the first
    error stops the replay, what was done before stays done.  The option
    [LogOutput] only prints the narration and is left out with it. *)
Fixpoint Import (r : list json) (l : Library) : result :=
  match r with
  | [] => (None, l)
  | doc :: rest =>
      match UnmarshalJSON doc zero_Invocation with
      | (Some e, _) => (Some (Wrapf "failed to read library state, %w" e), l)
      | (None, inv) =>
          match Exec inv l with
          | (Some e, (_, l')) => (Some e, l')
          | (None, (_, l')) => Import rest l'
          end
      end
  end.

(** ** Sequences of calls and reachable stores *)

(** A call of one of the six methods that write the store. *)
Inductive op :=
| OpAddBook (id : Z) (name : string) (count : Z)
| OpAddCopies (id count : Z)
| OpRemoveCopies (id count : Z)
| OpCreateAccount (id : Z) (name : string)
| OpCheckoutBook (accountID bookID : Z)
| OpReturnBook (accountID bookID : Z).

Definition call (o : op) (l : Library) : result :=
  match o with
  | OpAddBook id name count => AddBook id name count l
  | OpAddCopies id count => AddCopies id count l
  | OpRemoveCopies id count => RemoveCopies id count l
  | OpCreateAccount id name => CreateAccount id name l
  | OpCheckoutBook a b => CheckoutBook a b l
  | OpReturnBook a b => ReturnBook a b l
  end.

(** The arguments of a call are Go [int]s. *)
Definition valid_op (o : op) : Prop :=
  match o with
  | OpAddBook id _ count => in_range id ∧ in_range count
  | OpAddCopies id count => in_range id ∧ in_range count
  | OpRemoveCopies id count => in_range id ∧ in_range count
  | OpCreateAccount id _ => in_range id
  | OpCheckoutBook a b => in_range a ∧ in_range b
  | OpReturnBook a b => in_range a ∧ in_range b
  end.

(** The store after a sequence of calls, failed ones included. *)
Definition run (ops : list op) (l : Library) : Library :=
  foldl (λ l o, (call o l).2) l ops.

Definition reachable (l : Library) : Prop :=
  ∃ ops, Forall valid_op ops ∧ run ops New = l.

(** ** The invariant of reachable stores *)

Record Inv (l : Library) : Prop := {
  Inv_book_key : ∀ k b, books l !! k = Some b → Book_ID b = k;
  Inv_book_range : ∀ k b, books l !! k = Some b → in_range k ∧ in_range (Book_Count b);
  Inv_account_key : ∀ k a, accounts l !! k = Some a → Account_ID a = k;
  Inv_account_range : ∀ k a, accounts l !! k = Some a → in_range k;
  Inv_by_account : ∀ k c, c ∈ index_get (checkoutsByAccount l) k →
    Checkout_AccountID c = k ∧ is_Some (accounts l !! k)
    ∧ is_Some (books l !! Checkout_BookID c);
  Inv_sync : ∀ k c, c ∈ index_get (checkoutsByBook l) k ↔
    Checkout_BookID c = k
    ∧ c ∈ index_get (checkoutsByAccount l) (Checkout_AccountID c);
  Inv_nodup_account : ∀ k, NoDup (index_get (checkoutsByAccount l) k);
  Inv_nodup_book : ∀ k, NoDup (index_get (checkoutsByBook l) k);
  Inv_limit : ∀ k, (length (index_get (checkoutsByAccount l) k) ≤ 4)%nat
}.

(** ** Concrete stores *)

(** The scenario of the specification: two copies of book 1, one of them
    checked out by account 10. *)
Definition scenario_ops : list op :=
  [OpAddBook 1 "Dune" 2; OpCreateAccount 10 "Ada"; OpCheckoutBook 10 1].

Definition scenario : Library := run scenario_ops New.

(** The scenario before its checkout. *)
Definition before_checkout_ops : list op :=
  [OpAddBook 1 "Dune" 2; OpCreateAccount 10 "Ada"].

Definition before_checkout : Library := run before_checkout_ops New.

(** One copy of book 1 and two accounts, the first of which has checked
    the book out. *)
Definition one_copy_ops : list op :=
  [OpAddBook 1 "Dune" 1; OpCreateAccount 10 "Ada"; OpCreateAccount 11 "Bob";
   OpCheckoutBook 10 1].

Definition one_copy : Library := run one_copy_ops New.

(** A book whose count was raised past the largest [int]. *)
Definition overflow_ops : list op :=
  [OpAddBook 1 "Dune" max_int; OpAddCopies 1 1].

Definition overflow : Library := run overflow_ops New.

(** Account 10 holds four books. *)
Definition four_checkouts_ops : list op :=
  [OpAddBook 1 "Dune" 2; OpAddBook 2 "Emma" 1; OpAddBook 3 "Ulysses" 1;
   OpAddBook 4 "Walden" 1; OpAddBook 5 "Hamlet" 1; OpCreateAccount 10 "Ada";
   OpCheckoutBook 10 1; OpCheckoutBook 10 2; OpCheckoutBook 10 3; OpCheckoutBook 10 4].

Definition four_checkouts : Library := run four_checkouts_ops New.

(** The line that [Export] writes for a command: what [MarshalJSON]
    returns for it. *)
Definition line_of (cmd : Cmd.t) : json :=
  JObject [("name", JString (command_name cmd)); ("arguments", marshal_arguments cmd)].






(** The names that the switch of [UnmarshalJSON] knows. *)
Definition command_names : list string :=
  ["ADD_BOOK"; "ADD_COPIES"; "REMOVE_COPIES"; "CREATE_ACCOUNT"; "CHECKOUT_BOOK";
   "RETURN_BOOK"; "PRINT_CATALOG"; "PRINT_ACCOUNTS"].

(** The record of the specification's decoding scenario. *)
Definition record_ADD_BOOK (id : Z) (name : string) (count : Z) : json :=
  JObject [("name", JString "ADD_BOOK");
           ("arguments",
            JObject [("id", JInt id); ("name", JString name); ("count", JInt count)])].

(** ** The narration of [Exec]

    [Exec] also sets [inv.Output].  The record [Invocation] above does
    not carry that field: [Output] below is its value after [Exec], as a
    function of the invocation and the store before the call.  The text is
    kept as the sequence of writes that build it: a [fmt.Sprintf] or [fmt.Fprintf] with its format
    and operands, a [WriteString], a [WriteRune].  [Exec] reads the names it
    prints through [l.Book] and [l.Account], which return nil for a
    missing id; reading a field of nil panics, and the text is then
    [None]. *)

Inductive operand :=
| ValS (s : string)
| ValD (z : Z)
| ValV (e : error).

Inductive piece :=
| Fprintf (format : string) (operands : list operand)
| WriteString (s : string)
| WriteRune (c : ascii).

Definition builder : Type := option (list piece).

Definition write (p : piece) (sb : builder) : builder := (λ ps, ps ++ [p]) <$> sb.

(** The line feed that ends the formats of the reports. *)
Definition LF : ascii := ascii_of_N 10.
Definition ln (s : string) : string := s +:+ String LF EmptyString.

(** The three sentinel errors, and [errors.Is(err, sentinel)]: the chain
    of [%w] wrappers is followed, and a nil error is no sentinel. *)
Inductive sentinel := BookNotExist | AccountNotExist | CheckoutNotExist.

Fixpoint errors_Is_error (err : error) (target : sentinel) : bool :=
  match err, target with
  | ErrBookNotExist, BookNotExist => true
  | ErrAccountNotExist, AccountNotExist => true
  | ErrCheckoutNotExist, CheckoutNotExist => true
  | Wrapf _ inner, _ => errors_Is_error inner target
  | _, _ => false
  end.

Definition errors_Is (err : option error) (target : sentinel) : bool :=
  match err with
  | None => false
  | Some e => errors_Is_error e target
  end.

(** [EachBook] and [EachAccount]: the visitor is called on every value
    the [range] yields, in the order [bs] (or [acs]) of the iteration. *)
Definition EachBook_in {S} (bs : list Book) (fn : Book → S → S) (s : S) : S :=
  foldl (λ s book, fn book s) s bs.

Definition EachAccount_in {S} (acs : list Account) (fn : Account → S → S) (s : S) : S :=
  foldl (λ s account, fn account s) s acs.

(** [inv.Output] after [Exec inv l], for the iteration orders [bs] and
    [acs] that the two reports would take; [Some []] is the empty text of
    an [Invocation] whose output was never set. *)
Definition Output (inv : Invocation) (l : Library) (bs : list Book) (acs : list Account)
  : builder :=
  match Command_ inv with
  | Ptr (Cmd.AddBook i n c) =>
      match (AddBook i n c l).1 with
      | Some e =>
          Some [Fprintf "%s (%d) could not be added to the catalog, %v"
                  [ValS n; ValD i; ValV e]]
      | None =>
          Some [Fprintf "%s (%d) with %d copies added to the catalog"
                  [ValS n; ValD i; ValD c]]
      end
  | Ptr (Cmd.AddCopies i c) =>
      let '(err, l') := AddCopies i c l in
      if errors_Is err BookNotExist then
        Some [Fprintf "could not add %d copies, book (%d) does not exist" [ValD i]]
      else
        match GetBook i l' with
        | None => None
        | Some book =>
            match err with
            | Some e =>
                Some [Fprintf "%s (%d) could not add %d copies, %v"
                        [ValS (Book_Name book); ValD (Book_ID book); ValD c; ValV e]]
            | None =>
                Some [Fprintf "%s (%d) added %d copies"
                        [ValS (Book_Name book); ValD (Book_ID book); ValD c]]
            end
        end
  | Ptr (Cmd.RemoveCopies i c) =>
      let '(err, l') := RemoveCopies i c l in
      if errors_Is err BookNotExist then
        Some [Fprintf "could not remove %d copies, book (%d) does not exist" [ValD i]]
      else
        match GetBook i l' with
        | None => None
        | Some book =>
            match err with
            | Some e =>
                Some [Fprintf "%s (%d) could not remove %d copies, %v"
                        [ValS (Book_Name book); ValD (Book_ID book); ValD c; ValV e]]
            | None =>
                Some [Fprintf "%s (%d) removed %d copies"
                        [ValS (Book_Name book); ValD (Book_ID book); ValD c]]
            end
        end
  | Ptr (Cmd.CreateAccount i n) =>
      match (CreateAccount i n l).1 with
      | Some e =>
          Some [Fprintf "%s (%d) could not create account, %v" [ValS n; ValD i; ValV e]]
      | None => Some [Fprintf "%s (%d) created account" [ValS n; ValD i]]
      end
  | Ptr (Cmd.CheckoutBook a b) =>
      let '(err, l') := CheckoutBook a b l in
      if errors_Is err AccountNotExist then
        Some [Fprintf "could not checkout book, account (%d) does not exist" [ValD a]]
      else
        match GetAccount a l' with
        | None => None
        | Some account =>
            if errors_Is err BookNotExist then
              Some [Fprintf "%s (%d) could not checkout book, book (%d) does not exist"
                      [ValS (Account_Name account); ValD (Account_ID account); ValD b]]
            else
              match GetBook b l' with
              | None => None
              | Some book =>
                  match err with
                  | Some e =>
                      Some [Fprintf "%s (%d) could not checkout %s (%d), %v"
                              [ValS (Account_Name account); ValD (Account_ID account);
                               ValS (Book_Name book); ValD (Book_ID book); ValV e]]
                  | None =>
                      Some [Fprintf "%s (%d) checked out %s (%d)"
                              [ValS (Account_Name account); ValD (Account_ID account);
                               ValS (Book_Name book); ValD (Book_ID book)]]
                  end
              end
        end
  | Ptr (Cmd.ReturnBook a b) =>
      let '(err, l') := ReturnBook a b l in
      if errors_Is err AccountNotExist then
        Some [Fprintf "could not return book, account (%d) does not exist" [ValD a]]
      else
        match GetAccount a l' with
        | None => None
        | Some account =>
            if errors_Is err BookNotExist then
              Some [Fprintf "%s (%d) could not return book, book (%d) does not exist"
                      [ValS (Account_Name account); ValD (Account_ID account); ValD b]]
            else
              match GetBook b l' with
              | None => None
              | Some book =>
                  if errors_Is err CheckoutNotExist then
                    Some [Fprintf "%s (%d) could not return %s (%d), no checkout exists"
                            [ValS (Account_Name account); ValD (Account_ID account);
                             ValS (Book_Name book); ValD (Book_ID book)]]
                  else
                    match err with
                    | Some e =>
                        Some [Fprintf "%s (%d) could not return %s (%d)"
                                [ValS (Account_Name account); ValD (Account_ID account);
                                 ValS (Book_Name book); ValD (Book_ID book); ValV e]]
                    | None =>
                        Some [Fprintf "%s (%d) returned %s (%d)"
                                [ValS (Account_Name account); ValD (Account_ID account);
                                 ValS (Book_Name book); ValD (Book_ID book)]]
                    end
              end
        end
  | Ptr Cmd.PrintCatalog =>
      EachBook_in bs
        (λ book sb,
           let sb :=
             write (Fprintf (ln "## %s (%d)") [ValS (Book_Name book); ValD (Book_ID book)])
               sb in
           let sb := write (Fprintf (ln "Copies: %d") [ValD (Book_Count book)]) sb in
           let checkouts := CheckoutsByBook (Book_ID book) l in
           let sb := write (Fprintf (ln "Checked Out: %d") [ValD (len checkouts)]) sb in
           write (WriteRune LF) sb)
        (Some [WriteString (ln "# Library Catalog")])
  | Ptr Cmd.PrintAccounts =>
      EachAccount_in acs
        (λ account sb,
           let sb :=
             write (Fprintf (ln "## %s (%d)")
                      [ValS (Account_Name account); ValD (Account_ID account)]) sb in
           let sb := write (WriteString (ln "Checked Out Books:")) sb in
           let checkouts := CheckoutsByAccount (Account_ID account) l in
           let sb :=
             foldl (λ sb checkout,
                      match GetBook (Checkout_BookID checkout) l with
                      | None => None
                      | Some book =>
                          write (Fprintf (ln "- %s (%d)")
                                   [ValS (Book_Name book); ValD (Book_ID book)]) sb
                      end)
               sb checkouts in
           write (WriteRune LF) sb)
        (Some [WriteString (ln (ln "# Accounts"))])
  | _ => Some []
  end.

(** The number of verbs of a format: none of the formats of [Exec] has
    an escaped percent sign. *)
Fixpoint verbs (format : string) : nat :=
  match format with
  | EmptyString => 0%nat
  | String c rest => ((if Ascii.eqb c "%" then 1 else 0) + verbs rest)%nat
  end.

(** A write whose operands are as many as the verbs of its format. *)
Definition well_formed (p : piece) : Prop :=
  match p with
  | Fprintf format operands => verbs format = length operands
  | _ => True
  end.

(** Every book of the catalog has at least as many copies as live
    checkouts. *)
Definition covered (l : Library) : Prop :=
  ∀ k book, books l !! k = Some book → len (CheckoutsByBook k l) ≤ Book_Count book.

(** The calls that are not a checkout and do not raise a count past the
    largest [int]. *)
Definition keeps_cover (o : op) (l : Library) : Prop :=
  match o with
  | OpCheckoutBook _ _ => False
  | OpAddCopies id count =>
      ∀ book, books l !! id = Some book → Book_Count book + count ≤ max_int
  | _ => True
  end.

(** The integers of a command are Go [int]s. *)
Definition valid_command (cmd : Cmd.t) : Prop :=
  match cmd with
  | Cmd.AddBook i _ c => in_range i ∧ in_range c
  | Cmd.AddCopies i c => in_range i ∧ in_range c
  | Cmd.RemoveCopies i c => in_range i ∧ in_range c
  | Cmd.CreateAccount i _ => in_range i
  | Cmd.CheckoutBook a b => in_range a ∧ in_range b
  | Cmd.ReturnBook a b => in_range a ∧ in_range b
  | Cmd.PrintCatalog => True
  | Cmd.PrintAccounts => True
  end.

(** The struct that [UnmarshalJSON] points [inv.Command] to for each of
    the six names that carry arguments. *)
Definition zero_commands : list (string * Cmd.t) :=
  [("ADD_BOOK", Cmd.AddBook 0 "" 0); ("ADD_COPIES", Cmd.AddCopies 0 0);
   ("REMOVE_COPIES", Cmd.RemoveCopies 0 0); ("CREATE_ACCOUNT", Cmd.CreateAccount 0 "");
   ("CHECKOUT_BOOK", Cmd.CheckoutBook 0 0); ("RETURN_BOOK", Cmd.ReturnBook 0 0)].


(** The fields of type [int] of the six argument structs, each with the
    name of its command. *)
Definition int_members : list (string * string) :=
  [("ADD_BOOK", "id"); ("ADD_BOOK", "count"); ("ADD_COPIES", "id");
   ("ADD_COPIES", "count"); ("REMOVE_COPIES", "id"); ("REMOVE_COPIES", "count");
   ("CREATE_ACCOUNT", "id"); ("CHECKOUT_BOOK", "accountId"); ("CHECKOUT_BOOK", "bookId");
   ("RETURN_BOOK", "accountId"); ("RETURN_BOOK", "bookId")].

(** * Properties *)

(** ** Basic facts *)

Lemma in_range_wrap z : in_range (wrap z).
Proof.
  unfold in_range, wrap, min_int, max_int, int_bits.
  pose proof (Z.mod_pos_bound (z + 2 ^ (64 - 1)) (2 ^ 64) ltac:(lia)). lia.
Qed.

Lemma wrap_id z : in_range z → wrap z = z.
Proof.
  unfold in_range, wrap, min_int, max_int, int_bits. intros H.
  rewrite Z.mod_small; lia.
Qed.

Lemma index_get_insert m k v j :
  index_get (<[k := v]> m) j = if decide (k = j) then v else index_get m j.
Proof.
  unfold index_get. rewrite lookup_insert. by case_decide.
Qed.

Lemma index_get_insert_eq m k v : index_get (<[k := v]> m) k = v.
Proof. rewrite index_get_insert. by case_decide. Qed.

Lemma index_get_insert_ne m k v j : k ≠ j → index_get (<[k := v]> m) j = index_get m j.
Proof. intros. rewrite index_get_insert. by case_decide. Qed.

Lemma index_get_empty k : index_get ∅ k = [].
Proof. unfold index_get. by rewrite lookup_empty. Qed.

Lemma existsb_matchCheckout account book cs :
  existsb (matchCheckout account book) cs = true ↔
  {| Checkout_BookID := Book_ID book; Checkout_AccountID := Account_ID account |} ∈ cs.
Proof.
  rewrite existsb_exists. split.
  - intros ([b a] & Hin & Hm). apply list_elem_of_In in Hin.
    unfold matchCheckout in Hm. simpl in Hm.
    apply andb_true_iff in Hm as [?%Z.eqb_eq ?%Z.eqb_eq]. by subst.
  - intros Hin. eexists. split; [by apply list_elem_of_In|].
    unfold matchCheckout. simpl. by rewrite !Z.eqb_refl.
Qed.

Lemma matchCheckout_true account book c :
  matchCheckout account book c = true ↔
  c = {| Checkout_BookID := Book_ID book; Checkout_AccountID := Account_ID account |}.
Proof.
  destruct c as [b a]. unfold matchCheckout. simpl.
  rewrite andb_true_iff, !Z.eqb_eq. split; [intros []; by subst | by intros [= -> ->]].
Qed.

Lemma elem_of_DeleteFunc {A} (s : list A) del x :
  x ∈ DeleteFunc s del ↔ x ∈ s ∧ del x = false.
Proof.
  unfold DeleteFunc. by rewrite !list_elem_of_In, filter_In, negb_true_iff.
Qed.

Lemma NoDup_DeleteFunc {A} (s : list A) del : NoDup s → NoDup (DeleteFunc s del).
Proof.
  intros H. by apply NoDup_ListNoDup, List.NoDup_filter, NoDup_ListNoDup.
Qed.

Lemma length_DeleteFunc {A} (s : list A) del :
  (length (DeleteFunc s del) ≤ length s)%nat.
Proof.
  unfold DeleteFunc. induction s as [|x s IH]; simpl; [done|].
  destruct (negb (del x)); simpl; lia.
Qed.

(** Nothing is deleted from a slice in which nothing matches. *)
Lemma DeleteFunc_none {A} (s : list A) del :
  (∀ x, x ∈ s → del x = false) → DeleteFunc s del = s.
Proof.
  unfold DeleteFunc. induction s as [|x s IH]; simpl; intros H; [done|].
  rewrite (H x) by left. simpl. f_equal. apply IH. intros y Hy. apply H. by right.
Qed.

(** ** The invariant holds in every reachable store *)

Lemma Inv_New : Inv New.
Proof.
  split; simpl; intros *; rewrite ?lookup_empty, ?index_get_empty;
    try done; try apply NoDup_nil_2; try (simpl; lia).
  - by intros ?%elem_of_nil.
  - split; [by intros ?%elem_of_nil | by intros [_ ?%elem_of_nil]].
Qed.

Lemma Inv_AddBook id name count l :
  in_range id → in_range count → Inv l → Inv (AddBook id name count l).2.
Proof.
  intros Hid Hcount HI. unfold AddBook.
  destruct (books l !! id) as [b|] eqn:Hb; [done|].
  destruct (count <? 0); [done|]. simpl.
  destruct HI. split; simpl; try done.
  - intros k b. rewrite lookup_insert. case_decide; [by intros [= <-]; subst | eauto].
  - intros k b. rewrite lookup_insert. case_decide; [by intros [= <-]; subst | eauto].
  - intros k c Hc. destruct (Inv_by_account0 k c Hc) as (? & ? & Hs).
    split_and!; [done..|]. rewrite lookup_insert. case_decide; [by eexists | done].
Qed.

Lemma Inv_AddCopies id count l :
  in_range id → in_range count → Inv l → Inv (AddCopies id count l).2.
Proof.
  intros Hid Hcount HI. unfold AddCopies.
  destruct (books l !! id) as [b|] eqn:Hb; [|done].
  destruct (count <? 0); [done|]. simpl.
  destruct HI. split; simpl; try done.
  - intros k b'. rewrite lookup_insert. case_decide; [intros [= <-]; subst; simpl; eauto | eauto].
  - intros k b'. rewrite lookup_insert.
    case_decide; [intros [= <-]; subst; simpl; split; [done | apply in_range_wrap] | eauto].
  - intros k c Hc. destruct (Inv_by_account0 k c Hc) as (? & ? & Hs).
    split_and!; [done..|]. rewrite lookup_insert. case_decide; [by eexists | done].
Qed.

Lemma Inv_RemoveCopies id count l :
  in_range id → in_range count → Inv l → Inv (RemoveCopies id count l).2.
Proof.
  intros Hid Hcount HI. unfold RemoveCopies.
  destruct (books l !! id) as [b|] eqn:Hb; [|done].
  destruct (count <? 0); [done|].
  destruct (Book_Count b <? count); [done|]. simpl.
  destruct (_ <? count); [done|]. simpl.
  destruct HI. split; simpl; try done.
  - intros k b'. rewrite lookup_insert. case_decide; [intros [= <-]; subst; simpl; eauto | eauto].
  - intros k b'. rewrite lookup_insert.
    case_decide; [intros [= <-]; subst; simpl; split; [done | apply in_range_wrap] | eauto].
  - intros k c Hc. destruct (Inv_by_account0 k c Hc) as (? & ? & Hs).
    split_and!; [done..|]. rewrite lookup_insert. case_decide; [by eexists | done].
Qed.

Lemma Inv_CreateAccount id name l :
  in_range id → Inv l → Inv (CreateAccount id name l).2.
Proof.
  intros Hid HI. unfold CreateAccount.
  destruct (accounts l !! id) as [a|] eqn:Ha; [done|]. simpl.
  destruct HI. split; simpl; try done.
  - intros k a. rewrite lookup_insert. case_decide; [by intros [= <-]; subst | eauto].
  - intros k a. rewrite lookup_insert. case_decide; [by intros [= <-]; subst | eauto].
  - intros k c Hc. destruct (Inv_by_account0 k c Hc) as (? & Hs & ?).
    split_and!; [done| |done]. rewrite lookup_insert. case_decide; [by eexists | done].
Qed.

Lemma Inv_CheckoutBook a b l : Inv l → Inv (CheckoutBook a b l).2.
Proof.
  intros HI. unfold CheckoutBook.
  destruct (accounts l !! a) as [account|] eqn:Ha; [|done].
  destruct (books l !! b) as [book|] eqn:Hb; [|done].
  simpl. destruct (4 <=? _) eqn:Hlen; [done|].
  destruct (existsb _ _) eqn:Hdup; [done|]. simpl.
  apply Z.leb_gt in Hlen. unfold len in Hlen.
  apply not_true_iff_false in Hdup. rewrite existsb_matchCheckout in Hdup.
  destruct HI.
  rewrite (Inv_account_key0 _ _ Ha), (Inv_book_key0 _ _ Hb) in *.
  set (c0 := {| Checkout_BookID := b; Checkout_AccountID := a |}) in *.
  assert (Hc0b : Checkout_BookID c0 = b) by done.
  assert (Hc0a : Checkout_AccountID c0 = a) by done.
  clearbody c0.
  split; simpl; try done.
  - intros k c. rewrite index_get_insert. case_decide as Hk.
    + subst k. rewrite elem_of_app, list_elem_of_singleton. intros [Hc | ->].
      * by apply Inv_by_account0.
      * by rewrite Hc0a, Hc0b, Ha, Hb.
    + apply Inv_by_account0.
  - intros k c. rewrite !index_get_insert.
    destruct (decide (b = k)) as [Hk|Hk]; destruct (decide (a = Checkout_AccountID c)) as [Hc|Hc];
      rewrite ?elem_of_app, ?list_elem_of_singleton, Inv_sync0; try rewrite <- Hc;
      clear - Hc Hc0a Hc0b Hk; intuition (subst; congruence).
  - intros k. rewrite index_get_insert. case_decide; [|done].
    apply NoDup_app. split_and!; [done | | apply NoDup_singleton].
    intros x Hx ->%list_elem_of_singleton. done.
  - intros k. rewrite index_get_insert. case_decide; [|done].
    apply NoDup_app. split_and!; [done | | apply NoDup_singleton].
    intros x Hx ->%list_elem_of_singleton.
    apply Inv_sync0 in Hx as [_ Hx]. by rewrite Hc0a in Hx.
  - intros k. rewrite index_get_insert. case_decide; [|done].
    rewrite length_app. simpl. lia.
Qed.

Lemma Inv_ReturnBook a b l : Inv l → Inv (ReturnBook a b l).2.
Proof.
  intros HI. unfold ReturnBook.
  destruct (accounts l !! a) as [account|] eqn:Ha; [|done].
  destruct (books l !! b) as [book|] eqn:Hb; [|done].
  destruct (negb _) eqn:Hc; [done|]. simpl.
  destruct HI.
  assert (Hm : ∀ c, matchCheckout account book c = true ↔
                    c = {| Checkout_BookID := b; Checkout_AccountID := a |}).
  { intros c. rewrite matchCheckout_true.
    by rewrite (Inv_account_key0 _ _ Ha), (Inv_book_key0 _ _ Hb). }
  rewrite (Inv_account_key0 _ _ Ha), (Inv_book_key0 _ _ Hb) in *.
  set (c0 := {| Checkout_BookID := b; Checkout_AccountID := a |}) in *.
  assert (Hf : ∀ c, matchCheckout account book c = false ↔ c ≠ c0).
  { intros c. rewrite <- Hm. by destruct (matchCheckout account book c). }
  assert (Hc0b : Checkout_BookID c0 = b) by done.
  assert (Hc0a : Checkout_AccountID c0 = a) by done.
  clearbody c0.
  split; simpl; try done.
  - intros k c. rewrite index_get_insert. case_decide as Hk; [|apply Inv_by_account0].
    subst k. rewrite elem_of_DeleteFunc. intros [? _]. by apply Inv_by_account0.
  - intros k c. rewrite !index_get_insert.
    destruct (decide (b = k)) as [Hk|Hk]; destruct (decide (a = Checkout_AccountID c)) as [Hac|Hac];
      rewrite ?elem_of_DeleteFunc, ?Hf, Inv_sync0; try rewrite <- Hac;
      clear - Hac Hc0a Hc0b Hk; intuition (subst; congruence).
  - intros k. rewrite index_get_insert. case_decide; [|done].
    by apply NoDup_DeleteFunc.
  - intros k. rewrite index_get_insert. case_decide; [|done].
    by apply NoDup_DeleteFunc.
  - intros k. rewrite index_get_insert. case_decide; [|done].
    etrans; [apply length_DeleteFunc | done].
Qed.

Lemma Inv_call o l : valid_op o → Inv l → Inv (call o l).2.
Proof.
  destruct o; simpl; intros Hv HI.
  - destruct Hv. by apply Inv_AddBook.
  - destruct Hv. by apply Inv_AddCopies.
  - destruct Hv. by apply Inv_RemoveCopies.
  - by apply Inv_CreateAccount.
  - by apply Inv_CheckoutBook.
  - by apply Inv_ReturnBook.
Qed.

Lemma Inv_run ops l : Forall valid_op ops → Inv l → Inv (run ops l).
Proof.
  intros Hv. revert l. induction Hv as [|o ops Ho _ IH]; intros l HI; [done|].
  simpl. apply IH. by apply Inv_call.
Qed.

Lemma reachable_Inv l : reachable l → Inv l.
Proof. intros (ops & Hv & <-). apply Inv_run; [done | apply Inv_New]. Qed.

Lemma reachable_New : reachable New.
Proof. by exists []. Qed.

Lemma reachable_call o l : valid_op o → reachable l → reachable (call o l).2.
Proof.
  intros Ho (ops & Hv & <-). exists (ops ++ [o]). split.
  - apply Forall_app. by split; [|constructor].
  - unfold run. by rewrite foldl_app.
Qed.

(** ** Claims on single methods *)

(** C7.  [AddBook] with an id that is already in the catalog returns the
    error "book already exists" whatever the name and the count are, a
    negative count included (the test of the id comes first), and the
    store it leaves is the store it was given. *)
Theorem AddBook_existing_id l id name count book :
  books l !! id = Some book →
  AddBook id name count l = (Some (Errorf "book already exists" []), l).
Proof. intros Hb. unfold AddBook. by rewrite Hb. Qed.

Lemma AddBook_existing_id_witness :
  AddBook 1 "Dune, again" (-5) scenario = (Some (Errorf "book already exists" []), scenario).
Proof.
  apply (AddBook_existing_id scenario 1 "Dune, again" (-5)
           {| Book_ID := 1; Book_Name := "Dune"; Book_Count := 2 |}).
  vm_compute. reflexivity.
Defined.

(** C10.  A call of one of the six writing methods that returns an error
    leaves the whole store (catalog, accounts and both checkout indices)
    as it was before the call. *)
Theorem failed_call_keeps_store o l e :
  (call o l).1 = Some e → (call o l).2 = l.
Proof.
  destruct o; simpl.
  - unfold AddBook. destruct (books l !! id); [done|]. by destruct (count <? 0).
  - unfold AddCopies. destruct (books l !! id); [|done]. by destruct (count <? 0).
  - unfold RemoveCopies. destruct (books l !! id) as [book|]; [|done].
    destruct (count <? 0); [done|]. destruct (Book_Count book <? count); [done|].
    simpl. by destruct (_ <? count).
  - unfold CreateAccount. by destruct (accounts l !! id).
  - unfold CheckoutBook. destruct (accounts l !! accountID) as [account|]; [|done].
    destruct (books l !! bookID) as [book|]; [|done]. simpl.
    destruct (4 <=? _); [done|]. by destruct (existsb _ _).
  - unfold ReturnBook. destruct (accounts l !! accountID) as [account|]; [|done].
    destruct (books l !! bookID) as [book|]; [|done]. by destruct (negb _).
Qed.

Lemma failed_call_keeps_store_witness :
  (call (OpRemoveCopies 1 2) scenario).2 = scenario.
Proof.
  apply (failed_call_keeps_store (OpRemoveCopies 1 2) scenario
           (Errorf "cannot remove more copies of %s (%d) than are available to check out (%d)"
              [ArgS "Dune"; ArgD 1; ArgD 1])).
  vm_compute. reflexivity.
Defined.

(** C3.  [RemoveCopies] on a book of the catalog, for every count: a
    negative count and a count above [Book.Count] are refused (invalid
    argument); a count above the copies that are not checked out,
    [Book.Count] minus the live checkouts of the book, is refused with the
    availability error; any other count is accepted and [Book.Count]
    decreases by it.  In the scenario (two copies, one checked out), a
    first [RemoveCopies(1, 1)] is accepted and a second one is refused,
    no copy being available. *)
Theorem RemoveCopies_cases :
  (∀ l id count book,
     books l !! id = Some book →
     in_range (Book_Count book) →
     len (CheckoutsByBook (Book_ID book) l) ≤ max_int →
     let live := len (CheckoutsByBook (Book_ID book) l) in
     (count < 0 →
      RemoveCopies id count l = (Some (Errorf "cannot remove negative copies" []), l))
     ∧ (0 ≤ count → Book_Count book < count →
        RemoveCopies id count l
        = (Some (Errorf "cannot remove more copies than exist" []), l))
     ∧ (0 ≤ count ≤ Book_Count book → Book_Count book - live < count →
        RemoveCopies id count l
        = (Some (Errorf
             "cannot remove more copies of %s (%d) than are available to check out (%d)"
             [ArgS (Book_Name book); ArgD (Book_ID book); ArgD (Book_Count book - live)]),
           l))
     ∧ (0 ≤ count ≤ Book_Count book - live →
        RemoveCopies id count l
        = (None,
           set_books l
             (<[id := {| Book_ID := Book_ID book; Book_Name := Book_Name book;
                         Book_Count := Book_Count book - count |}]> (books l)))))
  ∧ (∃ l1,
       RemoveCopies 1 1 scenario = (None, l1)
       ∧ GetBook 1 l1 = Some {| Book_ID := 1; Book_Name := "Dune"; Book_Count := 1 |}
       ∧ CheckoutsByBook 1 l1 = CheckoutsByBook 1 scenario
       ∧ RemoveCopies 1 1 l1
         = (Some (Errorf
              "cannot remove more copies of %s (%d) than are available to check out (%d)"
              [ArgS "Dune"; ArgD 1; ArgD 0]), l1)).
Proof.
  split.
  - intros l id count book Hb Hr Hlen live.
    assert (0 ≤ live) by (unfold live, len; lia).
    unfold RemoveCopies. rewrite Hb.
    change (len (index_get (checkoutsByBook l) (Book_ID book))) with live.
    change (len (CheckoutsByBook (Book_ID book) l)) with live in Hlen.
    clearbody live. unfold in_range, min_int, max_int, int_bits in *.
    split_and!.
    + intros Hc. by rewrite (proj2 (Z.ltb_lt _ _) Hc).
    + intros Hc0 Hc. rewrite (proj2 (Z.ltb_ge _ _) Hc0).
      by rewrite (proj2 (Z.ltb_lt _ _) Hc).
    + intros [Hc0 Hc1] Hc. rewrite (proj2 (Z.ltb_ge _ _) Hc0).
      rewrite (proj2 (Z.ltb_ge _ _) Hc1). simpl.
      rewrite wrap_id by (unfold in_range, min_int, max_int, int_bits; lia).
      by rewrite (proj2 (Z.ltb_lt _ _) Hc).
    + intros [Hc0 Hc1]. rewrite (proj2 (Z.ltb_ge _ _) Hc0).
      rewrite (proj2 (Z.ltb_ge (Book_Count book) count) ltac:(lia)). simpl.
      rewrite (wrap_id (Book_Count book - live))
        by (unfold in_range, min_int, max_int, int_bits; lia).
      rewrite (wrap_id (Book_Count book - count))
        by (unfold in_range, min_int, max_int, int_bits; lia).
      by rewrite (proj2 (Z.ltb_ge _ _) Hc1).
  - eexists. split_and!; [vm_compute; reflexivity | by vm_compute..].
Qed.

Lemma RemoveCopies_cases_witness :
  RemoveCopies 1 1 scenario
  = (None,
     set_books scenario
       (<[1 := {| Book_ID := 1; Book_Name := "Dune"; Book_Count := 2 - 1 |}]>
          (books scenario))).
Proof.
  refine (proj2 (proj2 (proj2 (proj1 RemoveCopies_cases scenario 1 1
            {| Book_ID := 1; Book_Name := "Dune"; Book_Count := 2 |} _ _ _))) _).
  - vm_compute. reflexivity.
  - vm_compute. split; discriminate.
  - vm_compute. discriminate.
  - vm_compute. split; discriminate.
Defined.

(** ** Claims on checkouts *)

(** Closed goals on concrete calls. *)
Ltac valid_ops :=
  repeat first
    [ apply List.Forall_nil
    | apply List.Forall_cons; [vm_compute; repeat split; discriminate |] ].

Lemma reachable_four_checkouts : reachable four_checkouts.
Proof.
  exists four_checkouts_ops. split; [unfold four_checkouts_ops; valid_ops | unfold four_checkouts; reflexivity].
Qed.

Lemma reachable_scenario : reachable scenario.
Proof.
  exists scenario_ops. split; [unfold scenario_ops; valid_ops | unfold scenario; reflexivity].
Qed.

(** [CheckoutBook] tests the limit before it looks for a duplicate. *)
Lemma CheckoutBook_limit_aux l :
  Inv l →
  (∀ a b account book,
     accounts l !! a = Some account →
     books l !! b = Some book →
     length (index_get (checkoutsByAccount l) a) = 4%nat →
     CheckoutBook a b l
     = (Some (Errorf "%s (%d) cannot checkout more than 4 books at a time"
                [ArgS (Account_Name account); ArgD a]), l))
  ∧ (∀ a, (length (index_get (checkoutsByAccount l) a) ≤ 4)%nat).
Proof.
  intros HI. split.
  - intros a b account book Ha Hb Hlen. unfold CheckoutBook. rewrite Ha, Hb. simpl.
    rewrite (Inv_account_key _ HI _ _ Ha). unfold len. by rewrite Hlen.
  - intros a. apply (Inv_limit _ HI).
Qed.

(** C4.  In a reachable store, [CheckoutBook] for an account that holds
    four checkouts and any book of the catalog returns the limit error and
    leaves the store, both indices included, as it was; and no account of
    a reachable store holds more than four checkouts. *)
Theorem CheckoutBook_limit l :
  reachable l →
  (∀ a b account book,
     accounts l !! a = Some account →
     books l !! b = Some book →
     length (CheckoutsByAccount a l) = 4%nat →
     CheckoutBook a b l
     = (Some (Errorf "%s (%d) cannot checkout more than 4 books at a time"
                [ArgS (Account_Name account); ArgD a]), l))
  ∧ (∀ a, (length (CheckoutsByAccount a l) ≤ 4)%nat).
Proof. intros HI%reachable_Inv. by apply CheckoutBook_limit_aux. Qed.

Lemma CheckoutBook_limit_witness :
  CheckoutBook 10 5 four_checkouts
  = (Some (Errorf "%s (%d) cannot checkout more than 4 books at a time"
             [ArgS "Ada"; ArgD 10]), four_checkouts).
Proof.
  refine (proj1 (CheckoutBook_limit four_checkouts _) 10 5
            {| Account_ID := 10; Account_Name := "Ada" |}
            {| Book_ID := 5; Book_Name := "Hamlet"; Book_Count := 1 |} _ _ _).
  - exists four_checkouts_ops. split; [unfold four_checkouts_ops; valid_ops | unfold four_checkouts; reflexivity].
  - vm_compute. reflexivity.
  - vm_compute. reflexivity.
  - vm_compute. reflexivity.
Defined.

(** The book ids of the checkouts of one account are pairwise distinct. *)
Lemma Inv_distinct_books l a :
  Inv l → NoDup (Checkout_BookID <$> index_get (checkoutsByAccount l) a).
Proof.
  intros HI. apply NoDup_fmap_2_strong; [|apply (Inv_nodup_account _ HI)].
  intros [b1 a1] [b2 a2] H1 H2. simpl. intros ->.
  apply (Inv_by_account _ HI) in H1 as [H1 _], H2 as [H2 _]. simpl in *. by subst.
Qed.

(** C5, as the code has it.  In a reachable store, [CheckoutBook] for a
    pair that has a live checkout fails and leaves the store as it was:
    with the duplicate error when the account holds fewer than four
    checkouts, with the limit error when it holds four (the limit is
    tested first).  No account of a reachable store holds two checkouts of
    one book. *)
Theorem CheckoutBook_duplicate l :
  reachable l →
  (∀ a b account book,
     accounts l !! a = Some account →
     books l !! b = Some book →
     {| Checkout_BookID := b; Checkout_AccountID := a |} ∈ CheckoutsByAccount a l →
     is_Some (CheckoutBook a b l).1
     ∧ (CheckoutBook a b l).2 = l
     ∧ ((length (CheckoutsByAccount a l) < 4)%nat →
        CheckoutBook a b l
        = (Some (Errorf "%s (%d) cannot checkout more than one copy of %s (%d)"
                   [ArgS (Account_Name account); ArgD a; ArgS (Book_Name book); ArgD b]),
           l))
     ∧ (length (CheckoutsByAccount a l) = 4%nat →
        CheckoutBook a b l
        = (Some (Errorf "%s (%d) cannot checkout more than 4 books at a time"
                   [ArgS (Account_Name account); ArgD a]), l)))
  ∧ (∀ a, NoDup (Checkout_BookID <$> CheckoutsByAccount a l)).
Proof.
  intros Hr. pose proof (reachable_Inv _ Hr) as HI. split.
  - intros a b account book Ha Hb Hin.
    cut (((length (CheckoutsByAccount a l) < 4)%nat →
          CheckoutBook a b l
          = (Some (Errorf "%s (%d) cannot checkout more than one copy of %s (%d)"
                     [ArgS (Account_Name account); ArgD a; ArgS (Book_Name book); ArgD b]),
             l))
         ∧ (length (CheckoutsByAccount a l) = 4%nat →
            CheckoutBook a b l
            = (Some (Errorf "%s (%d) cannot checkout more than 4 books at a time"
                       [ArgS (Account_Name account); ArgD a]), l))).
    { intros [Hdup Hlim]. split_and!; [| |done..].
      - destruct (decide (length (CheckoutsByAccount a l) < 4)%nat) as [Hlt|Hge].
        + by rewrite (Hdup Hlt).
        + pose proof (Inv_limit _ HI a). unfold CheckoutsByAccount in *.
          by rewrite Hlim by lia.
      - destruct (decide (length (CheckoutsByAccount a l) < 4)%nat) as [Hlt|Hge].
        + by rewrite (Hdup Hlt).
        + pose proof (Inv_limit _ HI a). unfold CheckoutsByAccount in *.
          by rewrite Hlim by lia. }
    split.
    + intros Hlen. unfold CheckoutBook. rewrite Ha, Hb. simpl.
      rewrite (Inv_account_key _ HI _ _ Ha), (Inv_book_key _ HI _ _ Hb).
      unfold CheckoutsByAccount in *.
      rewrite (proj2 (Z.leb_gt _ _)) by (unfold len; lia).
      assert (existsb (matchCheckout account book) (index_get (checkoutsByAccount l) a)
              = true) as ->; [|done].
      apply existsb_matchCheckout.
      by rewrite (Inv_account_key _ HI _ _ Ha), (Inv_book_key _ HI _ _ Hb).
    + intros Hlen. by apply (proj1 (CheckoutBook_limit_aux l HI) a b account book).
  - intros a. by apply Inv_distinct_books.
Qed.

Lemma CheckoutBook_duplicate_witness :
  CheckoutBook 10 1 scenario
  = (Some (Errorf "%s (%d) cannot checkout more than one copy of %s (%d)"
             [ArgS "Ada"; ArgD 10; ArgS "Dune"; ArgD 1]), scenario).
Proof.
  refine (proj1 (proj2 (proj2 (proj1 (CheckoutBook_duplicate scenario _) 10 1
            {| Account_ID := 10; Account_Name := "Ada" |}
            {| Book_ID := 1; Book_Name := "Dune"; Book_Count := 2 |} _ _ _))) _).
  - exists scenario_ops. split; [unfold scenario_ops; valid_ops | unfold scenario; reflexivity].
  - vm_compute. reflexivity.
  - vm_compute. reflexivity.
  - vm_compute. left.
  - vm_compute. lia.
Defined.

(** C5, as it is worded, fails: account 10 of [four_checkouts] holds
    books 1 to 4, and a second checkout of book 1 is refused with the
    limit error, not with the duplicate error. *)
Lemma CheckoutBook_duplicate_counterexample :
  ¬ (∀ l a b account book,
       reachable l →
       accounts l !! a = Some account →
       books l !! b = Some book →
       {| Checkout_BookID := b; Checkout_AccountID := a |} ∈ CheckoutsByAccount a l →
       CheckoutBook a b l
       = (Some (Errorf "%s (%d) cannot checkout more than one copy of %s (%d)"
                  [ArgS (Account_Name account); ArgD a; ArgS (Book_Name book); ArgD b]), l)).
Proof.
  intros H.
  specialize (H four_checkouts 10 1
                {| Account_ID := 10; Account_Name := "Ada" |}
                {| Book_ID := 1; Book_Name := "Dune"; Book_Count := 2 |}
                reachable_four_checkouts).
  assert (Hlimit : (CheckoutBook 10 1 four_checkouts).1
                   = Some (Errorf "%s (%d) cannot checkout more than 4 books at a time"
                             [ArgS "Ada"; ArgD 10])) by (vm_compute; reflexivity).
  rewrite H in Hlimit.
  - discriminate Hlimit.
  - vm_compute. reflexivity.
  - vm_compute. reflexivity.
  - vm_compute. left.
Qed.

(** C6.  In a reachable store where the account and the book exist and
    the pair has no live checkout, after [CheckoutBook] and then
    [ReturnBook] for the pair every list of both checkout indices is what
    it was before the checkout, catalog and accounts too, and one more
    [ReturnBook] for the pair returns [ErrCheckoutNotExist].  When the
    account holds fewer than four checkouts both calls succeed, and the
    index maps are the old ones with the entries of the account and of
    the book set to their old lists. *)
Theorem checkout_then_return l a b account book :
  reachable l →
  accounts l !! a = Some account →
  books l !! b = Some book →
  {| Checkout_BookID := b; Checkout_AccountID := a |} ∉ CheckoutsByAccount a l →
  let r1 := CheckoutBook a b l in
  let r2 := ReturnBook a b r1.2 in
  let r3 := ReturnBook a b r2.2 in
  (∀ k, CheckoutsByAccount k r2.2 = CheckoutsByAccount k l)
  ∧ (∀ k, CheckoutsByBook k r2.2 = CheckoutsByBook k l)
  ∧ books r2.2 = books l ∧ accounts r2.2 = accounts l
  ∧ r3 = (Some ErrCheckoutNotExist, r2.2)
  ∧ ((length (CheckoutsByAccount a l) < 4)%nat →
     r1.1 = None ∧ r2.1 = None
     ∧ {| Checkout_BookID := b; Checkout_AccountID := a |} ∈ CheckoutsByAccount a r1.2
     ∧ {| Checkout_BookID := b; Checkout_AccountID := a |} ∈ CheckoutsByBook b r1.2
     ∧ checkoutsByAccount r2.2
       = <[a := CheckoutsByAccount a l]> (checkoutsByAccount l)
     ∧ checkoutsByBook r2.2 = <[b := CheckoutsByBook b l]> (checkoutsByBook l)).
Proof.
  intros HI%reachable_Inv Ha Hb Hnew.
  pose proof (Inv_account_key _ HI _ _ Ha) as Hak.
  pose proof (Inv_book_key _ HI _ _ Hb) as Hbk.
  unfold CheckoutsByAccount, CheckoutsByBook in *.
  set (c0 := {| Checkout_BookID := b; Checkout_AccountID := a |}) in *.
  assert (Hm : ∀ c, matchCheckout account book c = true ↔ c = c0).
  { intros c. by rewrite matchCheckout_true, Hak, Hbk. }
  assert (Hnone : existsb (matchCheckout account book) (index_get (checkoutsByAccount l) a)
                  = false).
  { apply not_true_iff_false. by rewrite existsb_matchCheckout, Hak, Hbk. }
  assert (Hnewb : c0 ∉ index_get (checkoutsByBook l) b).
  { intros [_ Hin]%(Inv_sync _ HI). done. }
  assert (Hdel : ∀ s, c0 ∉ s → DeleteFunc (s ++ [c0]) (matchCheckout account book) = s).
  { intros s Hs. unfold DeleteFunc. rewrite List.filter_app. simpl.
    rewrite (proj2 (Hm c0) eq_refl). simpl. rewrite app_nil_r.
    apply DeleteFunc_none. intros x Hx. apply not_true_iff_false. rewrite Hm.
    by intros ->. }
  assert (Hfail : ReturnBook a b l = (Some ErrCheckoutNotExist, l)).
  { unfold ReturnBook. rewrite Ha, Hb, Hak. unfold ContainsFunc. by rewrite Hnone. }
  destruct (4 <=? len (index_get (checkoutsByAccount l) a)) eqn:Hlen.
  - assert (Hck : CheckoutBook a b l
                  = (Some (Errorf "%s (%d) cannot checkout more than 4 books at a time"
                             [ArgS (Account_Name account); ArgD a]), l)).
    { unfold CheckoutBook. rewrite Ha, Hb. simpl. by rewrite Hak, Hlen. }
    rewrite Hck. simpl. rewrite Hfail. simpl. rewrite Hfail.
    split_and!; try done.
    apply Z.leb_le in Hlen. unfold len in Hlen. lia.
  - set (l1 := set_checkoutsByBook
                 (set_checkoutsByAccount l
                    (<[a := index_get (checkoutsByAccount l) a ++ [c0]]>
                       (checkoutsByAccount l)))
                 (<[b := index_get (checkoutsByBook l) b ++ [c0]]> (checkoutsByBook l))).
    set (l2 := set_checkoutsByBook
                 (set_checkoutsByAccount l
                    (<[a := index_get (checkoutsByAccount l) a]> (checkoutsByAccount l)))
                 (<[b := index_get (checkoutsByBook l) b]> (checkoutsByBook l))).
    assert (Hck : CheckoutBook a b l = (None, l1)).
    { unfold CheckoutBook. rewrite Ha, Hb. simpl. by rewrite Hak, Hbk, Hlen, Hnone. }
    assert (Hret : ReturnBook a b l1 = (None, l2)).
    { unfold ReturnBook, l1. simpl. rewrite Ha, Hb, Hak, Hbk. simpl.
      rewrite !index_get_insert_eq. unfold ContainsFunc.
      rewrite existsb_app. simpl. rewrite (proj2 (Hm c0) eq_refl), orb_true_r. simpl.
      rewrite !Hdel by done. by rewrite !insert_insert_eq. }
    assert (Hret2 : ReturnBook a b l2 = (Some ErrCheckoutNotExist, l2)).
    { unfold ReturnBook, l2. simpl. rewrite Ha, Hb, Hak. simpl.
      rewrite index_get_insert_eq. unfold ContainsFunc. by rewrite Hnone. }
    rewrite Hck. simpl. rewrite Hret. simpl. rewrite Hret2.
    split_and!; try done.
    + intros k. rewrite index_get_insert. by case_decide; subst.
    + intros k. rewrite index_get_insert. by case_decide; subst.
    + intros _. split_and!; try done.
      * rewrite index_get_insert_eq, elem_of_app. right. by left.
      * rewrite index_get_insert_eq, elem_of_app. right. by left.
Qed.

Lemma checkout_then_return_witness :
  ReturnBook 10 1 (ReturnBook 10 1 (CheckoutBook 10 1 before_checkout).2).2
  = (Some ErrCheckoutNotExist, (ReturnBook 10 1 (CheckoutBook 10 1 before_checkout).2).2).
Proof.
  refine (proj1 (proj2 (proj2 (proj2 (proj2
            (checkout_then_return before_checkout 10 1
               {| Account_ID := 10; Account_Name := "Ada" |}
               {| Book_ID := 1; Book_Name := "Dune"; Book_Count := 2 |} _ _ _ _)))))).
  - exists before_checkout_ops.
    split; [unfold before_checkout_ops; valid_ops | unfold before_checkout; reflexivity].
  - vm_compute. reflexivity.
  - vm_compute. reflexivity.
  - vm_compute. intros H. inversion H.
Defined.

(** C1, at the input where the code departs from it.  Book 1 has one
    copy, which account 10 holds; [CheckoutBook] for account 11 and book 1
    succeeds all the same, and the store then has two live checkouts of a
    book with one copy.  [RemoveCopies], which reads the same index,
    refuses to take a copy away from that store. *)
Theorem CheckoutBook_ignores_copies :
  reachable one_copy
  ∧ GetBook 1 one_copy = Some {| Book_ID := 1; Book_Name := "Dune"; Book_Count := 1 |}
  ∧ len (CheckoutsByBook 1 one_copy) = 1
  ∧ ∃ l',
      CheckoutBook 11 1 one_copy = (None, l')
      ∧ GetBook 1 l' = Some {| Book_ID := 1; Book_Name := "Dune"; Book_Count := 1 |}
      ∧ CheckoutsByBook 1 l'
        = [ {| Checkout_BookID := 1; Checkout_AccountID := 10 |};
            {| Checkout_BookID := 1; Checkout_AccountID := 11 |} ]
      ∧ len (CheckoutsByBook 1 l') = 2
      ∧ RemoveCopies 1 0 l'
        = (Some (Errorf
             "cannot remove more copies of %s (%d) than are available to check out (%d)"
             [ArgS "Dune"; ArgD 1; ArgD (-1)]), l').
Proof.
  split_and!.
  - exists one_copy_ops.
    split; [unfold one_copy_ops; valid_ops | unfold one_copy; reflexivity].
  - vm_compute. reflexivity.
  - vm_compute. reflexivity.
  - eexists. split_and!; [vm_compute; reflexivity | by vm_compute..].
Qed.

(** ** Claims on the encoding of commands *)

Lemma unknown_name_eqb name token :
  name ∉ command_names → token ∈ command_names → String.eqb name token = false.
Proof.
  intros Hn Ht. apply String.eqb_neq. by intros ->.
Qed.

Lemma in_range_check z : in_range z → fits_int z = true.
Proof.
  intros [??]. apply andb_true_iff. by rewrite !Z.leb_le.
Qed.

(** C8.  A record whose name is none of the eight command names is
    refused by [UnmarshalJSON] with the unknown-command error.  The
    decision is taken on the name alone, the arguments being still the
    raw text that the first decoding step stored: whatever the value of
    [arguments] is, of the wrong shape or missing altogether, the error is
    the same. *)
Theorem UnmarshalJSON_unknown_name :
  (∀ bs inv raw,
     unmarshal_Command bs (RawCommand inv) = (raw, None) →
     Name raw ∉ command_names →
     UnmarshalJSON bs inv
     = (Some (Errorf "unmarshal: unknown command type, %s" [ArgS (Name raw)]),
        with_RawCommand inv raw))
  ∧ (∀ name arguments inv,
       name ∉ command_names →
       UnmarshalJSON (JObject [("name", JString name); ("arguments", arguments)]) inv
       = (Some (Errorf "unmarshal: unknown command type, %s" [ArgS name]),
          with_RawCommand inv {| Name := name; Arguments := Some arguments |}))
  ∧ (∀ name,
       name ∉ command_names →
       UnmarshalJSON (JObject [("name", JString name)]) zero_Invocation
       = (Some (Errorf "unmarshal: unknown command type, %s" [ArgS name]),
          with_RawCommand zero_Invocation {| Name := name; Arguments := None |})).
Proof.
  assert (Hgen : ∀ bs inv raw,
     unmarshal_Command bs (RawCommand inv) = (raw, None) →
     Name raw ∉ command_names →
     UnmarshalJSON bs inv
     = (Some (Errorf "unmarshal: unknown command type, %s" [ArgS (Name raw)]),
        with_RawCommand inv raw)).
  { intros bs inv raw Hraw Hname. unfold UnmarshalJSON. rewrite Hraw.
    cbn [with_RawCommand RawCommand].
    rewrite !(unknown_name_eqb (Name raw)); try done;
      unfold command_names; set_solver. }
  split_and!.
  - exact Hgen.
  - intros name arguments inv Hname.
    by apply (Hgen _ inv {| Name := name; Arguments := Some arguments |}).
  - intros name Hname.
    by apply (Hgen _ zero_Invocation {| Name := name; Arguments := None |}).
Qed.

Lemma UnmarshalJSON_unknown_name_witness :
  UnmarshalJSON
    (JObject [("name", JString "BURN_BOOK"); ("arguments", JObject [("id", JString "one")])])
    zero_Invocation
  = (Some (Errorf "unmarshal: unknown command type, %s" [ArgS "BURN_BOOK"]),
     with_RawCommand zero_Invocation
       {| Name := "BURN_BOOK"; Arguments := Some (JObject [("id", JString "one")]) |}).
Proof.
  refine (proj1 (proj2 UnmarshalJSON_unknown_name) "BURN_BOOK"
            (JObject [("id", JString "one")]) zero_Invocation _).
  vm_compute. intros H.
  repeat (apply elem_of_cons in H as [H | H]; [discriminate H|]).
  inversion H.
Defined.

(** The arrangements of a list of two and of three members. *)
Lemma Permutation_two {A} (x y : A) l :
  l ≡ₚ [x; y] → l = [x; y] ∨ l = [y; x].
Proof.
  intros H. symmetry in H. apply permutations_Permutation in H.
  cbn in H. rewrite !elem_of_cons, elem_of_nil in H. tauto.
Qed.

Lemma Permutation_three {A} (x y z : A) l :
  l ≡ₚ [x; y; z] →
  l = [x; y; z] ∨ l = [y; x; z] ∨ l = [y; z; x]
  ∨ l = [x; z; y] ∨ l = [z; x; y] ∨ l = [z; y; x].
Proof.
  intros H. symmetry in H. apply permutations_Permutation in H.
  cbn in H. rewrite !elem_of_cons, elem_of_nil in H. tauto.
Qed.

(** C9.  The record of the scenario decodes to [AddBook{1, "Dune", 3}],
    and encoding that command gives the record back.  More generally a
    record with the name ADD_BOOK and the three arguments, its members
    written in any order, decodes to the command made of the three values,
    and the command encodes to the record with its members in the order of
    the struct fields. *)
Theorem ADD_BOOK_decode_encode :
  (UnmarshalJSON (record_ADD_BOOK 1 "Dune" 3) zero_Invocation).1 = None
  ∧ Command_ (UnmarshalJSON (record_ADD_BOOK 1 "Dune" 3) zero_Invocation).2
    = Ptr (Cmd.AddBook 1 "Dune" 3)
  ∧ (MarshalJSON (UnmarshalJSON (record_ADD_BOOK 1 "Dune" 3) zero_Invocation).2).1
    = inl (record_ADD_BOOK 1 "Dune" 3)
  ∧ (∀ id name count arguments members,
       in_range id → in_range count →
       arguments ≡ₚ [("id", JInt id); ("name", JString name); ("count", JInt count)] →
       members ≡ₚ [("name", JString "ADD_BOOK"); ("arguments", JObject arguments)] →
       (UnmarshalJSON (JObject members) zero_Invocation).1 = None
       ∧ Command_ (UnmarshalJSON (JObject members) zero_Invocation).2
         = Ptr (Cmd.AddBook id name count)
       ∧ (MarshalJSON (UnmarshalJSON (JObject members) zero_Invocation).2).1
         = inl (record_ADD_BOOK id name count)).
Proof.
  split_and!; [by vm_compute..|].
  intros id name count arguments members Hid%in_range_check Hcount%in_range_check Ha Hm.
  apply Permutation_two in Hm. apply Permutation_three in Ha.
  destruct Hm as [-> | ->];
    destruct Ha as [-> | [-> | [-> | [-> | [-> | ->]]]]];
    cbv - [fits_int]; rewrite Hid, Hcount; done.
Qed.

Lemma ADD_BOOK_decode_encode_witness :
  Command_
    (UnmarshalJSON
       (JObject [("arguments",
                  JObject [("count", JInt 5); ("id", JInt 7); ("name", JString "Emma")]);
                 ("name", JString "ADD_BOOK")])
       zero_Invocation).2
  = Ptr (Cmd.AddBook 7 "Emma" 5).
Proof.
  refine (proj1 (proj2 (proj2 (proj2 (proj2 ADD_BOOK_decode_encode)) 7 "Emma" 5
            [("count", JInt 5); ("id", JInt 7); ("name", JString "Emma")]
            [("arguments",
              JObject [("count", JInt 5); ("id", JInt 7); ("name", JString "Emma")]);
             ("name", JString "ADD_BOOK")] _ _ _ _))).
  - vm_compute. split; discriminate.
  - vm_compute. split; discriminate.
  - apply (Permutation_cons_append [("id", JInt 7); ("name", JString "Emma")]).
  - apply perm_swap.
Defined.

(** ** Claims on [Export] and [Import] *)

(** C2, at the input where the code departs from it.  [AddCopies] adds
    without a test for overflow: one more copy of a book that has
    [max_int] copies wraps the count to [min_int].  [Export] writes that
    count into its ADD_BOOK record, and [Import] of the exported lines
    into an empty store stops at that record, [AddBook] refusing a
    negative count: the store that was exported is not rebuilt. *)
Theorem Export_Import_overflow :
  reachable overflow
  ∧ GetBook 1 overflow
    = Some {| Book_ID := 1; Book_Name := "Dune"; Book_Count := min_int |}
  ∧ Export overflow = (None, [record_ADD_BOOK 1 "Dune" min_int])
  ∧ Import [record_ADD_BOOK 1 "Dune" min_int] New
    = (Some (Errorf "cannot add negative copies" []), New).
Proof.
  split_and!.
  - exists overflow_ops.
    split; [unfold overflow_ops; valid_ops | unfold overflow; reflexivity].
  - vm_compute. reflexivity.
  - vm_compute. reflexivity.
  - vm_compute. reflexivity.
Qed.

(** *** The round trip on stores without a wrapped count

    What follows shows that the overflow is the only obstacle: the
    export of a reachable store in which no count is negative, taken in
    any iteration order of the three maps, is imported into an empty store
    without error, and the store so built has the same catalog, the same
    accounts and, for every id, the same checkouts up to their order. *)



Lemma Import_cons doc rest l :
  Import (doc :: rest) l
  = match UnmarshalJSON doc zero_Invocation with
    | (Some e, _) => (Some (Wrapf "failed to read library state, %w" e), l)
    | (None, inv) =>
        match Exec inv l with
        | (Some e, (_, l')) => (Some e, l')
        | (None, (_, l')) => Import rest l'
        end
    end.
Proof. done. Qed.













(** A checkout that passes the four tests of [CheckoutBook]. *)
Lemma CheckoutBook_accepted l a b :
  Inv l →
  is_Some (accounts l !! a) → is_Some (books l !! b) →
  (length (index_get (checkoutsByAccount l) a) < 4)%nat →
  {| Checkout_BookID := b; Checkout_AccountID := a |} ∉ index_get (checkoutsByAccount l) a →
  CheckoutBook a b l
  = (None,
     set_checkoutsByBook
       (set_checkoutsByAccount l
          (<[a := index_get (checkoutsByAccount l) a
                  ++ [{| Checkout_BookID := b; Checkout_AccountID := a |}]]>
             (checkoutsByAccount l)))
       (<[b := index_get (checkoutsByBook l) b
               ++ [{| Checkout_BookID := b; Checkout_AccountID := a |}]]>
          (checkoutsByBook l))).
Proof.
  intros HI [account Ha] [book Hb] Hlen Hnew.
  unfold CheckoutBook. rewrite Ha, Hb. simpl.
  rewrite (Inv_account_key _ HI _ _ Ha), (Inv_book_key _ HI _ _ Hb).
  rewrite (proj2 (Z.leb_gt _ _)) by (unfold len; lia).
  assert (existsb (matchCheckout account book) (index_get (checkoutsByAccount l) a)
          = false) as ->; [|done].
  apply not_true_iff_false. rewrite existsb_matchCheckout.
  by rewrite (Inv_account_key _ HI _ _ Ha), (Inv_book_key _ HI _ _ Hb).
Qed.









(** * Further properties of the store *)

(** ** Catalog and accounts *)

(** X1.  [AddBook] with an id that is not in the catalog: a negative
    count is refused and the store stays as it was; any other count is
    accepted, [Book] then returns the record made of the three arguments,
    and every other book, the accounts and both indices are as before. *)
Theorem AddBook_fresh l id name count :
  books l !! id = None →
  (count < 0 →
   AddBook id name count l = (Some (Errorf "cannot add negative copies" []), l))
  ∧ (0 ≤ count →
     ∃ l',
       AddBook id name count l = (None, l')
       ∧ GetBook id l' = Some {| Book_ID := id; Book_Name := name; Book_Count := count |}
       ∧ (∀ k, k ≠ id → GetBook k l' = GetBook k l)
       ∧ accounts l' = accounts l
       ∧ checkoutsByAccount l' = checkoutsByAccount l
       ∧ checkoutsByBook l' = checkoutsByBook l).
Proof.
  intros Hid. unfold AddBook. rewrite Hid. split.
  - intros Hc. by rewrite (proj2 (Z.ltb_lt _ _) Hc).
  - intros Hc. rewrite (proj2 (Z.ltb_ge _ _) Hc). eexists. split; [done|].
    unfold GetBook. simpl. split_and!; try done.
    + apply lookup_insert_eq.
    + intros k Hk. by apply lookup_insert_ne.
Qed.

Lemma AddBook_fresh_witness :
  ∃ l',
    AddBook 7 "Emma" 0 scenario = (None, l')
    ∧ GetBook 7 l' = Some {| Book_ID := 7; Book_Name := "Emma"; Book_Count := 0 |}
    ∧ (∀ k, k ≠ 7 → GetBook k l' = GetBook k scenario)
    ∧ accounts l' = accounts scenario
    ∧ checkoutsByAccount l' = checkoutsByAccount scenario
    ∧ checkoutsByBook l' = checkoutsByBook scenario.
Proof.
  refine (proj2 (AddBook_fresh scenario 7 "Emma" 0 _) _).
  - vm_compute. reflexivity.
  - lia.
Defined.

Lemma wrap_overflow z : max_int < z ≤ 2 * max_int → wrap z = z - 2 ^ int_bits ∧ wrap z < 0.
Proof.
  unfold wrap, max_int, int_bits. intros Hz.
  replace (z + 2 ^ (64 - 1)) with (z - 2 ^ (64 - 1) + 1 * 2 ^ 64) by lia.
  rewrite Z_mod_plus_full, Z.mod_small by lia. lia.
Qed.

(** X2.  [AddCopies], all cases.  A missing book gives [ErrBookNotExist]
    whatever the count; on a book of the catalog a negative count is
    refused; any other count is added to [Book.Count] in 64-bit
    arithmetic, the id and the name of the book and all the rest of the
    store being kept.  The new count is the sum when the sum fits an
    [int]; when it does not, it is the sum minus 2^64, a negative
    number. *)
Theorem AddCopies_cases l id count :
  (books l !! id = None → AddCopies id count l = (Some ErrBookNotExist, l))
  ∧ (∀ book,
       books l !! id = Some book →
       (count < 0 →
        AddCopies id count l = (Some (Errorf "cannot add negative copies" []), l))
       ∧ (0 ≤ count →
          ∃ l' n,
            AddCopies id count l = (None, l')
            ∧ GetBook id l'
              = Some {| Book_ID := Book_ID book; Book_Name := Book_Name book;
                        Book_Count := n |}
            ∧ (∀ k, k ≠ id → GetBook k l' = GetBook k l)
            ∧ accounts l' = accounts l
            ∧ checkoutsByAccount l' = checkoutsByAccount l
            ∧ checkoutsByBook l' = checkoutsByBook l
            ∧ in_range n
            ∧ (in_range (Book_Count book) → in_range count →
               (Book_Count book + count ≤ max_int → n = Book_Count book + count)
               ∧ (max_int < Book_Count book + count →
                  n = Book_Count book + count - 2 ^ int_bits ∧ n < 0)))).
Proof.
  unfold AddCopies. split.
  - by intros ->.
  - intros book ->. split.
    + intros Hc. by rewrite (proj2 (Z.ltb_lt _ _) Hc).
    + intros Hc. rewrite (proj2 (Z.ltb_ge _ _) Hc).
      eexists _, (wrap (Book_Count book + count)). split; [done|].
      unfold GetBook. simpl. split_and!; try done.
      * apply lookup_insert_eq.
      * intros k Hk. by apply lookup_insert_ne.
      * apply in_range_wrap.
      * intros Hb Hn. split.
        -- intros Hsum. apply wrap_id. unfold in_range in *. lia.
        -- intros Hsum. apply wrap_overflow. unfold in_range in *. lia.
Qed.

Lemma AddCopies_cases_witness :
  ∃ l' n,
    AddCopies 1 max_int scenario = (None, l')
    ∧ GetBook 1 l' = Some {| Book_ID := 1; Book_Name := "Dune"; Book_Count := n |}
    ∧ (∀ k, k ≠ 1 → GetBook k l' = GetBook k scenario)
    ∧ accounts l' = accounts scenario
    ∧ checkoutsByAccount l' = checkoutsByAccount scenario
    ∧ checkoutsByBook l' = checkoutsByBook scenario
    ∧ in_range n
    ∧ (in_range 2 → in_range max_int →
       (2 + max_int ≤ max_int → n = 2 + max_int)
       ∧ (max_int < 2 + max_int → n = 2 + max_int - 2 ^ int_bits ∧ n < 0)).
Proof.
  refine (proj2 (proj2 (AddCopies_cases scenario 1 max_int)
            {| Book_ID := 1; Book_Name := "Dune"; Book_Count := 2 |} _) _).
  - vm_compute. reflexivity.
  - vm_compute. discriminate.
Defined.

(** X3.  Copies added and then removed.  On a book that has at least as
    many copies as live checkouts, [AddCopies] of a count that does not
    overflow followed by [RemoveCopies] of the same count succeeds twice
    and gives back the store it started from. *)
Theorem AddCopies_then_RemoveCopies l id count book :
  books l !! id = Some book →
  0 ≤ count →
  Book_Count book + count ≤ max_int →
  len (CheckoutsByBook (Book_ID book) l) ≤ Book_Count book →
  (AddCopies id count l).1 = None
  ∧ RemoveCopies id count (AddCopies id count l).2 = (None, l).
Proof.
  intros Hb Hc Hsum Hlive.
  assert (0 ≤ len (CheckoutsByBook (Book_ID book) l)) by (unfold len; lia).
  unfold CheckoutsByBook in *.
  assert (Hmax : 0 < max_int) by (vm_compute; reflexivity).
  assert (Hmin : min_int < 0) by (vm_compute; reflexivity).
  unfold AddCopies. rewrite Hb, (proj2 (Z.ltb_ge _ _) Hc). simpl. split; [done|].
  unfold RemoveCopies. simpl. rewrite lookup_insert_eq. simpl.
  rewrite (proj2 (Z.ltb_ge _ _) Hc).
  rewrite (wrap_id (Book_Count book + count)) by (unfold in_range; lia).
  rewrite (proj2 (Z.ltb_ge _ _)) by lia. simpl.
  rewrite (wrap_id (Book_Count book + count - _)) by (unfold in_range; lia).
  rewrite (proj2 (Z.ltb_ge _ _)) by lia.
  rewrite wrap_id by (unfold in_range; lia).
  replace (Book_Count book + count - count) with (Book_Count book) by lia.
  unfold set_books. simpl. rewrite insert_insert_eq.
  replace {| Book_ID := Book_ID book; Book_Name := Book_Name book;
             Book_Count := Book_Count book |} with book by by destruct book.
  rewrite insert_id by done. by destruct l.
Qed.

Lemma AddCopies_then_RemoveCopies_witness :
  (AddCopies 1 5 scenario).1 = None
  ∧ RemoveCopies 1 5 (AddCopies 1 5 scenario).2 = (None, scenario).
Proof.
  refine (AddCopies_then_RemoveCopies scenario 1 5
            {| Book_ID := 1; Book_Name := "Dune"; Book_Count := 2 |} _ _ _ _).
  - vm_compute. reflexivity.
  - lia.
  - vm_compute. discriminate.
  - vm_compute. discriminate.
Defined.

(** X4.  [CreateAccount]: an id that is taken is refused whatever the
    name, and the store stays as it was; a free id is accepted (there is
    no test on the id or the name), [Account] then returns the record made
    of the two arguments, and the other accounts, the catalog and both
    indices are as before. *)
Theorem CreateAccount_cases l id name :
  (∀ account,
     accounts l !! id = Some account →
     CreateAccount id name l = (Some (Errorf "account already exists" []), l))
  ∧ (accounts l !! id = None →
     ∃ l',
       CreateAccount id name l = (None, l')
       ∧ GetAccount id l' = Some {| Account_ID := id; Account_Name := name |}
       ∧ (∀ k, k ≠ id → GetAccount k l' = GetAccount k l)
       ∧ books l' = books l
       ∧ checkoutsByAccount l' = checkoutsByAccount l
       ∧ checkoutsByBook l' = checkoutsByBook l).
Proof.
  unfold CreateAccount. split.
  - by intros account ->.
  - intros ->. eexists. split; [done|]. unfold GetAccount. simpl.
    split_and!; try done.
    + apply lookup_insert_eq.
    + intros k Hk. by apply lookup_insert_ne.
Qed.

Lemma CreateAccount_cases_witness :
  CreateAccount 10 "Grace" scenario
  = (Some (Errorf "account already exists" []), scenario).
Proof.
  refine (proj1 (CreateAccount_cases scenario 10 "Grace")
            {| Account_ID := 10; Account_Name := "Ada" |} _).
  vm_compute. reflexivity.
Defined.

(** ** Missing ids *)

(** X5.  The order of the lookups.  With an account id that is not
    registered, [CheckoutBook] and [ReturnBook] return
    [ErrAccountNotExist], whether the book exists or not; with a
    registered account and a book id that is not in the catalog they
    return [ErrBookNotExist].  [RemoveCopies] on a missing book returns
    [ErrBookNotExist] even for a negative count.  The store is left as it
    was in all these cases. *)
Theorem missing_ids l :
  (∀ a b, accounts l !! a = None →
     CheckoutBook a b l = (Some ErrAccountNotExist, l)
     ∧ ReturnBook a b l = (Some ErrAccountNotExist, l))
  ∧ (∀ a b, is_Some (accounts l !! a) → books l !! b = None →
       CheckoutBook a b l = (Some ErrBookNotExist, l)
       ∧ ReturnBook a b l = (Some ErrBookNotExist, l))
  ∧ (∀ id count, books l !! id = None →
       RemoveCopies id count l = (Some ErrBookNotExist, l)).
Proof.
  split_and!.
  - intros a b Ha. unfold CheckoutBook, ReturnBook. by rewrite Ha.
  - intros a b [account Ha] Hb. unfold CheckoutBook, ReturnBook. by rewrite Ha, Hb.
  - intros id count Hb. unfold RemoveCopies. by rewrite Hb.
Qed.

Lemma missing_ids_witness :
  CheckoutBook 10 99 scenario = (Some ErrBookNotExist, scenario)
  ∧ ReturnBook 10 99 scenario = (Some ErrBookNotExist, scenario).
Proof.
  refine (proj1 (proj2 (missing_ids scenario)) 10 99 _ _).
  - vm_compute. by eexists.
  - vm_compute. reflexivity.
Defined.

(** X8.  [ReturnBook] returns nil or one of the three sentinel errors of
    the package, in every store: the tests that [Exec] makes with
    [errors.Is] on its result leave no other error. *)
Theorem ReturnBook_errors l a b :
  (ReturnBook a b l).1 = None
  ∨ (ReturnBook a b l).1 = Some ErrAccountNotExist
  ∨ (ReturnBook a b l).1 = Some ErrBookNotExist
  ∨ (ReturnBook a b l).1 = Some ErrCheckoutNotExist.
Proof.
  unfold ReturnBook. destruct (accounts l !! a) as [account|]; [|auto].
  destruct (books l !! b) as [book|]; [|auto].
  destruct (negb _); auto.
Qed.

(** ** Checkouts and returns in a reachable store *)

Lemma length_DeleteFunc_NoDup (s : list Checkout) (c : Checkout) del :
  (∀ x, del x = true ↔ x = c) → NoDup s → c ∈ s →
  S (length (DeleteFunc s del)) = length s.
Proof.
  intros Hdel. unfold DeleteFunc. induction s as [|x s IH]; intros Hnd Hin.
  - by apply elem_of_nil in Hin.
  - apply NoDup_cons in Hnd as [Hx Hnd]. simpl.
    destruct (del x) eqn:Hd; simpl.
    + apply Hdel in Hd as ->. f_equal.
      change (length (DeleteFunc s del) = length s). f_equal.
      apply DeleteFunc_none. intros y Hy. apply not_true_iff_false.
      rewrite Hdel. by intros ->.
    + f_equal. apply IH; [done|]. apply elem_of_cons in Hin as [-> | Hin]; [|done].
      assert (del x = true) by by apply Hdel. congruence.
Qed.

Lemma sublist_DeleteFunc {A} (s : list A) del : sublist (DeleteFunc s del) s.
Proof.
  unfold DeleteFunc. induction s as [|x s IH]; simpl; [constructor|].
  destruct (negb (del x)); by constructor.
Qed.

(** X6.  When [CheckoutBook] succeeds, and what it then does.  In a
    reachable store the call returns nil exactly when the account and the
    book exist, the account holds fewer than four checkouts and does not
    hold the book.  The new checkout is then put at the end of the list of
    the account and of the list of the book; every other list, the catalog
    and the accounts are as before. *)
Theorem CheckoutBook_effect l a b :
  reachable l →
  let c := {| Checkout_BookID := b; Checkout_AccountID := a |} in
  ((CheckoutBook a b l).1 = None ↔
   is_Some (GetAccount a l) ∧ is_Some (GetBook b l)
   ∧ (length (CheckoutsByAccount a l) < 4)%nat ∧ c ∉ CheckoutsByAccount a l)
  ∧ ((CheckoutBook a b l).1 = None →
     let l' := (CheckoutBook a b l).2 in
     CheckoutsByAccount a l' = CheckoutsByAccount a l ++ [c]
     ∧ CheckoutsByBook b l' = CheckoutsByBook b l ++ [c]
     ∧ (∀ k, k ≠ a → CheckoutsByAccount k l' = CheckoutsByAccount k l)
     ∧ (∀ k, k ≠ b → CheckoutsByBook k l' = CheckoutsByBook k l)
     ∧ books l' = books l ∧ accounts l' = accounts l).
Proof.
  intros HI%reachable_Inv c.
  assert (Hiff : (CheckoutBook a b l).1 = None ↔
                 is_Some (GetAccount a l) ∧ is_Some (GetBook b l)
                 ∧ (length (CheckoutsByAccount a l) < 4)%nat
                 ∧ c ∉ CheckoutsByAccount a l).
  { unfold GetAccount, GetBook, CheckoutsByAccount. split.
    - unfold CheckoutBook.
      destruct (accounts l !! a) as [account|] eqn:Ha; [|done].
      destruct (books l !! b) as [book|] eqn:Hb; [|done]. simpl.
      rewrite (Inv_account_key _ HI _ _ Ha).
      destruct (4 <=? _) eqn:Hlen; [done|].
      destruct (existsb _ _) eqn:Hdup; [done|]. intros _.
      apply Z.leb_gt in Hlen. unfold len in Hlen.
      apply not_true_iff_false in Hdup. rewrite existsb_matchCheckout in Hdup.
      rewrite (Inv_account_key _ HI _ _ Ha), (Inv_book_key _ HI _ _ Hb) in Hdup.
      split_and!; [by eexists | by eexists | lia | done].
    - intros (Ha & Hb & Hlen & Hnew).
      by rewrite (CheckoutBook_accepted l a b HI Ha Hb Hlen Hnew). }
  split; [done|].
  intros (Ha & Hb & Hlen & Hnew)%Hiff.
  unfold GetAccount, GetBook, CheckoutsByAccount, CheckoutsByBook in *.
  rewrite (CheckoutBook_accepted l a b HI Ha Hb Hlen Hnew). simpl.
  rewrite !index_get_insert_eq. split_and!; try done.
  - intros k Hk. by apply index_get_insert_ne.
  - intros k Hk. by apply index_get_insert_ne.
Qed.

Lemma CheckoutBook_effect_witness :
  CheckoutsByAccount 10 (CheckoutBook 10 1 before_checkout).2
  = CheckoutsByAccount 10 before_checkout
    ++ [{| Checkout_BookID := 1; Checkout_AccountID := 10 |}].
Proof.
  refine (proj1 (proj2 (CheckoutBook_effect before_checkout 10 1 _) _)).
  - exists before_checkout_ops.
    split; [unfold before_checkout_ops; valid_ops | unfold before_checkout; reflexivity].
  - vm_compute. reflexivity.
Defined.

(** X7.  When [ReturnBook] succeeds, and what it then does.  In a
    reachable store the call returns nil exactly when the account holds
    the book.  That one checkout is then taken out of the list of the
    account and of the list of the book, each of which gets one shorter
    and keeps its other checkouts in their order; every other list, the
    catalog and the accounts are as before. *)
Theorem ReturnBook_effect l a b :
  reachable l →
  let c := {| Checkout_BookID := b; Checkout_AccountID := a |} in
  ((ReturnBook a b l).1 = None ↔ c ∈ CheckoutsByAccount a l)
  ∧ ((ReturnBook a b l).1 = None →
     let l' := (ReturnBook a b l).2 in
     (∀ x, x ∈ CheckoutsByAccount a l' ↔ x ∈ CheckoutsByAccount a l ∧ x ≠ c)
     ∧ (∀ x, x ∈ CheckoutsByBook b l' ↔ x ∈ CheckoutsByBook b l ∧ x ≠ c)
     ∧ sublist (CheckoutsByAccount a l') (CheckoutsByAccount a l)
     ∧ sublist (CheckoutsByBook b l') (CheckoutsByBook b l)
     ∧ S (length (CheckoutsByAccount a l')) = length (CheckoutsByAccount a l)
     ∧ S (length (CheckoutsByBook b l')) = length (CheckoutsByBook b l)
     ∧ (∀ k, k ≠ a → CheckoutsByAccount k l' = CheckoutsByAccount k l)
     ∧ (∀ k, k ≠ b → CheckoutsByBook k l' = CheckoutsByBook k l)
     ∧ books l' = books l ∧ accounts l' = accounts l).
Proof.
  intros HI%reachable_Inv c. unfold CheckoutsByAccount, CheckoutsByBook.
  assert (Hiff : (ReturnBook a b l).1 = None ↔ c ∈ index_get (checkoutsByAccount l) a).
  { split.
    - unfold ReturnBook.
      destruct (accounts l !! a) as [account|] eqn:Ha; [|done].
      destruct (books l !! b) as [book|] eqn:Hb; [|done].
      destruct (negb _) eqn:Hc; [done|]. intros _.
      apply negb_false_iff in Hc. unfold ContainsFunc in Hc.
      apply existsb_matchCheckout in Hc.
      by rewrite (Inv_account_key _ HI _ _ Ha), (Inv_book_key _ HI _ _ Hb) in Hc.
    - intros Hc. destruct (Inv_by_account _ HI _ _ Hc) as (_ & [account Ha] & [book Hb]).
      simpl in Hb. unfold ReturnBook. rewrite Ha, Hb.
      rewrite (Inv_account_key _ HI _ _ Ha).
      assert (ContainsFunc (index_get (checkoutsByAccount l) a)
                (matchCheckout account book) = true) as ->; [|done].
      apply existsb_matchCheckout.
      by rewrite (Inv_account_key _ HI _ _ Ha), (Inv_book_key _ HI _ _ Hb). }
  split; [done|].
  intros Hc%Hiff.
  destruct (Inv_by_account _ HI _ _ Hc) as (_ & [account Ha] & [book Hb]).
  simpl in Hb.
  assert (Hm : ∀ x, matchCheckout account book x = true ↔ x = c).
  { intros x. rewrite matchCheckout_true.
    by rewrite (Inv_account_key _ HI _ _ Ha), (Inv_book_key _ HI _ _ Hb). }
  assert (Hf : ∀ x, matchCheckout account book x = false ↔ x ≠ c).
  { intros x. rewrite <- Hm. by destruct (matchCheckout account book x). }
  assert (Hcb : c ∈ index_get (checkoutsByBook l) b) by by apply (Inv_sync _ HI).
  unfold ReturnBook. rewrite Ha, Hb.
  rewrite (Inv_account_key _ HI _ _ Ha), (Inv_book_key _ HI _ _ Hb).
  assert (ContainsFunc (index_get (checkoutsByAccount l) a)
            (matchCheckout account book) = true) as ->.
  { apply existsb_matchCheckout.
    by rewrite (Inv_account_key _ HI _ _ Ha), (Inv_book_key _ HI _ _ Hb). }
  simpl. rewrite !index_get_insert_eq. split_and!; try done.
  - intros x. by rewrite elem_of_DeleteFunc, Hf.
  - intros x. by rewrite elem_of_DeleteFunc, Hf.
  - apply sublist_DeleteFunc.
  - apply sublist_DeleteFunc.
  - apply (length_DeleteFunc_NoDup _ c); [done | apply (Inv_nodup_account _ HI) | done].
  - apply (length_DeleteFunc_NoDup _ c); [done | apply (Inv_nodup_book _ HI) | done].
  - intros k Hk. by apply index_get_insert_ne.
  - intros k Hk. by apply index_get_insert_ne.
Qed.

Lemma ReturnBook_effect_witness :
  S (length (CheckoutsByBook 1 (ReturnBook 10 1 scenario).2))
  = length (CheckoutsByBook 1 scenario).
Proof.
  refine (proj1 (proj2 (proj2 (proj2 (proj2 (proj2
            (proj2 (ReturnBook_effect scenario 10 1 _) _))))))).
  - exists scenario_ops. split; [unfold scenario_ops; valid_ops | unfold scenario; reflexivity].
  - vm_compute. reflexivity.
Defined.

(** ** What every reachable store satisfies *)

(** X9.  The two indices of a reachable store hold the same checkouts
    and no dangling one.  A checkout found in the list of account [a]
    has [a] as its account, its account and its book exist, and it is in
    the list of its book; a checkout found in the list of book [b] has [b]
    as its book, its book and its account exist, and it is in the list of
    its account.  No list holds a checkout twice, and every record is
    stored under its own id. *)
Theorem reachable_consistent l :
  reachable l →
  (∀ k book, GetBook k l = Some book → Book_ID book = k)
  ∧ (∀ k account, GetAccount k l = Some account → Account_ID account = k)
  ∧ (∀ a c, c ∈ CheckoutsByAccount a l →
       Checkout_AccountID c = a
       ∧ is_Some (GetAccount a l) ∧ is_Some (GetBook (Checkout_BookID c) l)
       ∧ c ∈ CheckoutsByBook (Checkout_BookID c) l)
  ∧ (∀ b c, c ∈ CheckoutsByBook b l →
       Checkout_BookID c = b
       ∧ is_Some (GetBook b l) ∧ is_Some (GetAccount (Checkout_AccountID c) l)
       ∧ c ∈ CheckoutsByAccount (Checkout_AccountID c) l)
  ∧ (∀ a, NoDup (CheckoutsByAccount a l))
  ∧ (∀ b, NoDup (CheckoutsByBook b l)).
Proof.
  intros HI%reachable_Inv.
  unfold GetBook, GetAccount, CheckoutsByAccount, CheckoutsByBook. split_and!.
  - apply (Inv_book_key _ HI).
  - apply (Inv_account_key _ HI).
  - intros a c Hc. destruct (Inv_by_account _ HI _ _ Hc) as (Ha & ? & ?).
    split_and!; try done. apply (Inv_sync _ HI). by rewrite Ha.
  - intros b c Hc. destruct (proj1 (Inv_sync _ HI b c) Hc) as [Hb Hc'].
    destruct (Inv_by_account _ HI _ _ Hc') as (_ & ? & ?).
    split_and!; try done. by rewrite <- Hb.
  - apply (Inv_nodup_account _ HI).
  - apply (Inv_nodup_book _ HI).
Qed.

Lemma reachable_consistent_witness :
  Checkout_BookID {| Checkout_BookID := 3; Checkout_AccountID := 10 |} = 3
  ∧ is_Some (GetBook 3 four_checkouts)
  ∧ is_Some (GetAccount 10 four_checkouts)
  ∧ {| Checkout_BookID := 3; Checkout_AccountID := 10 |}
    ∈ CheckoutsByAccount 10 four_checkouts.
Proof.
  refine (proj1 (proj2 (proj2 (proj2 (reachable_consistent four_checkouts _)))) 3
            {| Checkout_BookID := 3; Checkout_AccountID := 10 |} _).
  - exists four_checkouts_ops.
    split; [unfold four_checkouts_ops; valid_ops | unfold four_checkouts; reflexivity].
  - vm_compute. left.
Defined.

(** X10.  Nothing is ever deleted or renamed.  After any sequence of
    calls, failed ones included, a book that was in the catalog is still
    there under the same id and name (its count alone may differ), and an
    account that was registered is still there, unchanged. *)
Theorem records_persist ops l :
  (∀ k book, GetBook k l = Some book →
     ∃ book', GetBook k (run ops l) = Some book'
              ∧ Book_ID book' = Book_ID book ∧ Book_Name book' = Book_Name book)
  ∧ (∀ k account, GetAccount k l = Some account →
       GetAccount k (run ops l) = Some account).
Proof.
  unfold GetBook, GetAccount. revert l. induction ops as [|o ops IH]; intros l.
  - split; [|done]. intros k book Hk. by exists book.
  - simpl. destruct (IH (call o l).2) as [IHb IHa]. split.
    + intros k book Hk.
      assert (∃ book1, books (call o l).2 !! k = Some book1
                       ∧ Book_ID book1 = Book_ID book
                       ∧ Book_Name book1 = Book_Name book) as (book1 & H1 & Hid & Hname).
      { destruct o; simpl.
        - unfold AddBook. destruct (books l !! id) eqn:Hid; [by exists book|].
          destruct (count <? 0); [by exists book|]. simpl.
          exists book. rewrite lookup_insert_ne; [done | congruence].
        - unfold AddCopies. destruct (books l !! id) as [b0|] eqn:Hid; [|by exists book].
          destruct (count <? 0); [by exists book|]. simpl.
          destruct (decide (id = k)) as [->|Hne].
          + rewrite lookup_insert_eq. eexists. split; [done|]. simpl. by simplify_eq.
          + rewrite lookup_insert_ne by done. by exists book.
        - unfold RemoveCopies.
          destruct (books l !! id) as [b0|] eqn:Hid; [|by exists book].
          destruct (count <? 0); [by exists book|].
          destruct (Book_Count b0 <? count); [by exists book|]. simpl.
          destruct (_ <? count); [by exists book|]. simpl.
          destruct (decide (id = k)) as [->|Hne].
          + rewrite lookup_insert_eq. eexists. split; [done|]. simpl. by simplify_eq.
          + rewrite lookup_insert_ne by done. by exists book.
        - unfold CreateAccount. destruct (accounts l !! id); by exists book.
        - unfold CheckoutBook. destruct (accounts l !! accountID); [|by exists book].
          destruct (books l !! bookID); [|by exists book]. simpl.
          destruct (4 <=? _); [by exists book|]. destruct (existsb _ _); by exists book.
        - unfold ReturnBook. destruct (accounts l !! accountID); [|by exists book].
          destruct (books l !! bookID); [|by exists book].
          destruct (negb _); by exists book. }
      destruct (IHb k book1 H1) as (book' & H' & Hid' & Hname').
      exists book'. split_and!; [done | congruence..].
    + intros k account Hk. apply IHa.
      destruct o; simpl.
      * unfold AddBook. destruct (books l !! id); [done|]. by destruct (count <? 0).
      * unfold AddCopies. destruct (books l !! id); [|done]. by destruct (count <? 0).
      * unfold RemoveCopies. destruct (books l !! id) as [b0|]; [|done].
        destruct (count <? 0); [done|]. destruct (Book_Count b0 <? count); [done|].
        simpl. by destruct (_ <? count).
      * unfold CreateAccount. destruct (accounts l !! id) eqn:Hid; [done|]. simpl.
        rewrite lookup_insert_ne; [done | congruence].
      * unfold CheckoutBook. destruct (accounts l !! accountID); [|done].
        destruct (books l !! bookID); [|done]. simpl.
        destruct (4 <=? _); [done|]. by destruct (existsb _ _).
      * unfold ReturnBook. destruct (accounts l !! accountID); [|done].
        destruct (books l !! bookID); [|done]. by destruct (negb _).
Qed.

Lemma records_persist_witness :
  ∃ book', GetBook 1 (run [OpRemoveCopies 1 1; OpAddBook 1 "Emma" 9] scenario) = Some book'
           ∧ Book_ID book' = 1 ∧ Book_Name book' = "Dune".
Proof.
  refine (proj1 (records_persist [OpRemoveCopies 1 1; OpAddBook 1 "Emma" 9] scenario) 1
            {| Book_ID := 1; Book_Name := "Dune"; Book_Count := 2 |} _).
  vm_compute. reflexivity.
Defined.

(** X11.  Only a checkout, or an overflow, can leave a book with more
    live checkouts than copies.  In a store that satisfies the invariant
    of reachable stores and in which every book has at least as many
    copies as live checkouts, any call other than [CheckoutBook], and
    other than an [AddCopies] that overflows, leaves a store in which
    every book still has at least as many copies as live checkouts. *)
Theorem covered_kept o l :
  reachable l → valid_op o → covered l → keeps_cover o l → covered (call o l).2.
Proof.
  intros HI%reachable_Inv Hv Hcov Hkeep. unfold covered, CheckoutsByBook in *.
  assert (Hmax : 0 < max_int) by (vm_compute; reflexivity).
  assert (Hmin : min_int < 0) by (vm_compute; reflexivity).
  destruct o; simpl in *.
  - unfold AddBook. destruct (books l !! id) eqn:Hid; [done|].
    destruct (count <? 0) eqn:Hc; [done|]. simpl. apply Z.ltb_ge in Hc.
    intros k book. rewrite lookup_insert. case_decide as Hk; [|by apply Hcov].
    subst k. intros [= <-]. simpl.
    destruct (index_get (checkoutsByBook l) id) as [|c cs] eqn:Hcs; [done|].
    assert (Hin : c ∈ index_get (checkoutsByBook l) id) by (rewrite Hcs; by left).
    apply (Inv_sync _ HI) in Hin as [Hb Hin].
    apply (Inv_by_account _ HI) in Hin as (_ & _ & [book Hbook]).
    rewrite Hb in Hbook. congruence.
  - unfold AddCopies. destruct (books l !! id) as [b0|] eqn:Hid; [|done].
    destruct (count <? 0) eqn:Hc; [done|]. simpl. apply Z.ltb_ge in Hc.
    intros k book. rewrite lookup_insert. case_decide as Hk; [|by apply Hcov].
    subst k. intros [= <-]. simpl.
    specialize (Hcov _ _ Hid). specialize (Hkeep _ eq_refl).
    destruct (Inv_book_range _ HI _ _ Hid) as [_ Hr].
    rewrite wrap_id; [lia|]. unfold in_range in *. lia.
  - unfold RemoveCopies. destruct (books l !! id) as [b0|] eqn:Hid; [|done].
    destruct (count <? 0) eqn:Hc; [done|]. apply Z.ltb_ge in Hc.
    destruct (Book_Count b0 <? count) eqn:Hc1; [done|]. apply Z.ltb_ge in Hc1. simpl.
    pose proof (Hcov _ _ Hid) as Hlive.
    destruct (Inv_book_range _ HI _ _ Hid) as [_ Hr].
    rewrite (Inv_book_key _ HI _ _ Hid).
    assert (0 ≤ len (index_get (checkoutsByBook l) id)) by (unfold len; lia).
    rewrite (wrap_id (Book_Count b0 - _)) by (unfold in_range in *; lia).
    destruct (_ <? count) eqn:Hc2; [done|]. apply Z.ltb_ge in Hc2. simpl.
    intros k book. rewrite lookup_insert. case_decide as Hk; [|by apply Hcov].
    subst k. intros [= <-]. simpl.
    rewrite wrap_id; [lia|]. unfold in_range in *. lia.
  - unfold CreateAccount. by destruct (accounts l !! id).
  - done.
  - unfold ReturnBook. destruct (accounts l !! accountID) as [account|] eqn:Ha; [|done].
    destruct (books l !! bookID) as [book|] eqn:Hb; [|done].
    destruct (negb _); [done|]. simpl.
    intros k book' Hk. rewrite index_get_insert. case_decide as Hkb; [|by apply Hcov].
    subst k. etrans; [|by apply (Hcov _ _ Hk)].
    unfold len. apply inj_le, length_DeleteFunc.
Qed.

Lemma covered_kept_witness :
  covered (call (OpRemoveCopies 1 1) before_checkout).2.
Proof.
  refine (covered_kept (OpRemoveCopies 1 1) before_checkout _ _ _ _).
  - exists before_checkout_ops.
    split; [unfold before_checkout_ops; valid_ops | unfold before_checkout; reflexivity].
  - vm_compute. repeat split; discriminate.
  - intros k book Hk.
    assert (Hb : books before_checkout
                 = {[1 := {| Book_ID := 1; Book_Name := "Dune"; Book_Count := 2 |}]})
      by (vm_compute; reflexivity).
    rewrite Hb in Hk. apply lookup_singleton_Some in Hk as [<- <-].
    vm_compute. discriminate.
  - exact I.
Defined.

(** * Further properties of the command layer *)

(** ** Decoding *)

Lemma find_field_in {T} (fields : list (string * @setter T)) key set :
  find_field fields key = Some set → ∃ name, (name, set) ∈ fields.
Proof.
  induction fields as [|[name s0] fields IH]; [done|]. simpl.
  destruct (String.eqb _ _).
  - intros [= <-]. exists name. by left.
  - intros (name' & Hin)%IH. exists name'. by right.
Qed.

(** A property of the struct that every setter of the table keeps is
    kept by the decoding of any list of members. *)
Lemma decode_members_keeps {T} (P : T → Prop) (fields : list (string * @setter T))
    members v saved :
  (∀ name set value v, (name, set) ∈ fields → P v → P (set value v).1) →
  P v → P (decode_members fields members v saved).1.
Proof.
  intros Hset. revert v saved. induction members as [|[key value] members IH];
    intros v saved Hv; [done|].
  simpl. destruct (find_field fields key) as [set|] eqn:Hf; [|by apply IH].
  apply find_field_in in Hf as [name Hin].
  pose proof (Hset name set value v Hin Hv) as Hv'.
  destruct (set value v) as [v' err]. by apply IH.
Qed.

Lemma decode_struct_keeps {T} (P : T → Prop) type (fields : list (string * @setter T))
    doc v :
  (∀ name set value v, (name, set) ∈ fields → P v → P (set value v).1) →
  P v → P (decode_struct type fields doc v).1.
Proof.
  intros Hset Hv. destruct doc; try done. simpl. by apply decode_members_keeps.
Qed.

Lemma int_field_keeps {T} (P : T → Prop) field (set : Z → T → T) value v :
  (∀ z v, in_range z → P v → P (set z v)) → P v → P (int_field field set value v).1.
Proof.
  intros Hset Hv. destruct value; try done. simpl.
  destruct (fits_int z) eqn:Hz; [|done]. simpl. apply Hset; [|done].
  unfold fits_int in Hz. apply andb_true_iff in Hz as [?%Z.leb_le ?%Z.leb_le]. done.
Qed.

Lemma string_field_keeps {T} (P : T → Prop) field (set : string → T → T) value v :
  (∀ s v, P v → P (set s v)) → P v → P (string_field field set value v).1.
Proof. intros Hset Hv. destruct value; try done. simpl. by apply Hset. Qed.

Lemma in_range_0 : in_range 0.
Proof. vm_compute. split; discriminate. Qed.

(** Whatever the arguments are, the integers that the decoding leaves
    in the struct fit an [int]. *)
Lemma unmarshal_arguments_valid rbs zero :
  valid_command zero → valid_command (unmarshal_arguments rbs zero).1.
Proof.
  intros Hz. unfold unmarshal_arguments. destruct rbs as [doc|]; [|done].
  destruct zero as [i n c|i c|i c|i n|a b|a b| |]; try done.
  - set (P := λ v : Z * string * Z, in_range v.1.1 ∧ in_range v.2).
    pose proof (decode_struct_keeps P "AddBook" AddBook_fields doc (i, n, c)) as H.
    destruct (decode_struct _ _ _ _) as [[[i' n'] c'] err]. apply H; [|done].
    intros name set value v Hin Hv. unfold AddBook_fields in Hin.
    repeat (apply elem_of_cons in Hin as [[= _ ->] | Hin]);
      [apply (int_field_keeps P) | apply (string_field_keeps P)
       | apply (int_field_keeps P) | by apply elem_of_nil in Hin];
      try done;
      intros; repeat match goal with v : (_ * _)%type |- _ => destruct v end;
      unfold P in *; simpl in *; tauto.
  - set (P := λ v : Z * Z, in_range v.1 ∧ in_range v.2).
    pose proof (decode_struct_keeps P "AddCopies" (Copies_fields "AddCopies") doc (i, c))
      as H.
    destruct (decode_struct _ _ _ _) as [[i' c'] err]. apply H; [|done].
    intros name set value v Hin Hv. unfold Copies_fields in Hin.
    repeat (apply elem_of_cons in Hin as [[= _ ->] | Hin]);
      [apply (int_field_keeps P) | apply (int_field_keeps P)
       | by apply elem_of_nil in Hin];
      try done;
      intros; repeat match goal with v : (_ * _)%type |- _ => destruct v end;
      unfold P in *; simpl in *; tauto.
  - set (P := λ v : Z * Z, in_range v.1 ∧ in_range v.2).
    pose proof (decode_struct_keeps P "RemoveCopies" (Copies_fields "RemoveCopies") doc
                  (i, c)) as H.
    destruct (decode_struct _ _ _ _) as [[i' c'] err]. apply H; [|done].
    intros name set value v Hin Hv. unfold Copies_fields in Hin.
    repeat (apply elem_of_cons in Hin as [[= _ ->] | Hin]);
      [apply (int_field_keeps P) | apply (int_field_keeps P)
       | by apply elem_of_nil in Hin];
      try done;
      intros; repeat match goal with v : (_ * _)%type |- _ => destruct v end;
      unfold P in *; simpl in *; tauto.
  - set (P := λ v : Z * string, in_range v.1).
    pose proof (decode_struct_keeps P "CreateAccount" CreateAccount_fields doc (i, n))
      as H.
    destruct (decode_struct _ _ _ _) as [[i' n'] err]. apply H; [|done].
    intros name set value v Hin Hv. unfold CreateAccount_fields in Hin.
    repeat (apply elem_of_cons in Hin as [[= _ ->] | Hin]);
      [apply (int_field_keeps P) | apply (string_field_keeps P)
       | by apply elem_of_nil in Hin];
      try done;
      intros; repeat match goal with v : (_ * _)%type |- _ => destruct v end;
      unfold P in *; simpl in *; tauto.
  - set (P := λ v : Z * Z, in_range v.1 ∧ in_range v.2).
    pose proof (decode_struct_keeps P "CheckoutBook" (Pair_fields "CheckoutBook") doc
                  (a, b)) as H.
    destruct (decode_struct _ _ _ _) as [[a' b'] err]. apply H; [|done].
    intros name set value v Hin Hv. unfold Pair_fields in Hin.
    repeat (apply elem_of_cons in Hin as [[= _ ->] | Hin]);
      [apply (int_field_keeps P) | apply (int_field_keeps P)
       | by apply elem_of_nil in Hin];
      try done;
      intros; repeat match goal with v : (_ * _)%type |- _ => destruct v end;
      unfold P in *; simpl in *; tauto.
  - set (P := λ v : Z * Z, in_range v.1 ∧ in_range v.2).
    pose proof (decode_struct_keeps P "ReturnBook" (Pair_fields "ReturnBook") doc
                  (a, b)) as H.
    destruct (decode_struct _ _ _ _) as [[a' b'] err]. apply H; [|done].
    intros name set value v Hin Hv. unfold Pair_fields in Hin.
    repeat (apply elem_of_cons in Hin as [[= _ ->] | Hin]);
      [apply (int_field_keeps P) | apply (int_field_keeps P)
       | by apply elem_of_nil in Hin];
      try done;
      intros; repeat match goal with v : (_ * _)%type |- _ => destruct v end;
      unfold P in *; simpl in *; tauto.
Qed.

Lemma decode_into_result inv zero :
  valid_command zero →
  ∃ cmd, Command_ (decode_into inv zero).2 = Ptr cmd
         ∧ RawCommand (decode_into inv zero).2 = RawCommand inv
         ∧ command_name cmd = command_name zero ∧ valid_command cmd.
Proof.
  intros Hz. unfold decode_into.
  pose proof (unmarshal_arguments_valid (Arguments (RawCommand inv)) zero Hz) as Hv.
  assert (Hn : command_name (unmarshal_arguments (Arguments (RawCommand inv)) zero).1
               = command_name zero).
  { unfold unmarshal_arguments. destruct (Arguments (RawCommand inv)); [|done].
    destruct zero; try done; simpl;
      repeat match goal with
        | |- context [decode_struct ?a ?b ?c ?d] => destruct (decode_struct a b c d)
        | p : (_ * _)%type |- _ => destruct p
        end; done. }
  destruct (unmarshal_arguments _ _) as [cmd err]. by exists cmd.
Qed.

(** X12.  What an accepted record decodes to.  When [UnmarshalJSON]
    returns nil, [inv.Command] points to one of the eight argument
    structs, the one that the name of the record selects, and every
    integer in it fits an [int]: [Exec] never meets an unknown command
    type on a decoded invocation. *)
Theorem UnmarshalJSON_accepted doc inv0 inv :
  UnmarshalJSON doc inv0 = (None, inv) →
  ∃ cmd,
    Command_ inv = Ptr cmd
    ∧ command_name cmd = Name (RawCommand inv)
    ∧ valid_command cmd
    ∧ ∀ l t, (Exec inv l).1 ≠ Some (Errorf "exec: unknown command type, %T" [ArgT t]).
Proof.
  intros Hdec.
  cut (∃ cmd, Command_ inv = Ptr cmd ∧ command_name cmd = Name (RawCommand inv)
              ∧ valid_command cmd).
  { intros (cmd & Hc & Hn & Hv). exists cmd. split_and!; try done.
    intros l t. unfold Exec. rewrite Hc.
    destruct cmd; simpl; try done;
      unfold AddBook, AddCopies, RemoveCopies, CreateAccount, CheckoutBook, ReturnBook;
      repeat case_match; simplify_eq; simpl; discriminate. }
  unfold UnmarshalJSON in Hdec.
  destruct (unmarshal_Command doc (RawCommand inv0)) as [raw [e|]]; [done|].
  cbn [with_RawCommand RawCommand] in Hdec.
  pose proof in_range_0 as H0.
  repeat match type of Hdec with
    | (if String.eqb ?n ?t then _ else _) = _ => destruct (String.eqb n t) eqn:?
    end;
    try match goal with
      | H : String.eqb _ _ = true |- _ => apply String.eqb_eq in H; rename H into Hname
      end.
  all: try match type of Hdec with
    | decode_into ?i ?z = _ =>
        destruct (decode_into_result i z) as (cmd & Hc & Hr & Hn & Hv); [by simpl|];
        rewrite Hdec in Hc, Hr; simpl in Hc, Hr; exists cmd; rewrite Hr; simpl;
        by rewrite Hn, Hname
    end.
  - injection Hdec as <-. exists Cmd.PrintCatalog. simpl. by rewrite Hname.
  - injection Hdec as <-. exists Cmd.PrintAccounts. simpl. by rewrite Hname.
  - done.
Qed.

Lemma UnmarshalJSON_accepted_witness :
  ∃ cmd,
    Command_ {| RawCommand := {| Name := "RETURN_BOOK"; Arguments := Some JNull |};
                Command_ := Ptr (Cmd.ReturnBook 0 0) |} = Ptr cmd
    ∧ command_name cmd = "RETURN_BOOK"
    ∧ valid_command cmd
    ∧ ∀ l t, (Exec {| RawCommand := {| Name := "RETURN_BOOK"; Arguments := Some JNull |};
                      Command_ := Ptr (Cmd.ReturnBook 0 0) |} l).1
             ≠ Some (Errorf "exec: unknown command type, %T" [ArgT t]).
Proof.
  refine (UnmarshalJSON_accepted
            (JObject [("name", JString "RETURN_BOOK"); ("arguments", JNull)])
            zero_Invocation _ _).
  vm_compute. reflexivity.
Defined.

(** ** Replaying a stream *)

Lemma Exec_failure_keeps_store inv l e :
  (Exec inv l).1 = Some e → (Exec inv l).2.2 = l.
Proof.
  unfold Exec. destruct (Command_ inv) as [|cmd|]; [done| |done].
  destruct cmd; simpl; try done;
    unfold AddBook, AddCopies, RemoveCopies, CreateAccount, CheckoutBook, ReturnBook;
    repeat case_match; simplify_eq; simpl; done.
Qed.

Lemma Exec_reachable inv l cmd :
  Command_ inv = Ptr cmd → valid_command cmd → reachable l → reachable (Exec inv l).2.2.
Proof.
  intros Hc Hv Hl. unfold Exec. rewrite Hc. destruct cmd; simpl in *; try done.
  - pose proof (reachable_call (OpAddBook ID Name0 Count) l Hv Hl) as H. simpl in H.
    by destruct (AddBook _ _ _ _).
  - pose proof (reachable_call (OpAddCopies ID Count) l Hv Hl) as H. simpl in H.
    by destruct (AddCopies _ _ _).
  - pose proof (reachable_call (OpRemoveCopies ID Count) l Hv Hl) as H. simpl in H.
    by destruct (RemoveCopies _ _ _).
  - pose proof (reachable_call (OpCreateAccount ID Name0) l Hv Hl) as H. simpl in H.
    by destruct (CreateAccount _ _ _).
  - pose proof (reachable_call (OpCheckoutBook AccountID BookID) l Hv Hl) as H.
    simpl in H. by destruct (CheckoutBook _ _ _).
  - pose proof (reachable_call (OpReturnBook AccountID BookID) l Hv Hl) as H.
    simpl in H. by destruct (ReturnBook _ _ _).
Qed.

Lemma UnmarshalJSON_command doc inv0 inv :
  UnmarshalJSON doc inv0 = (None, inv) →
  ∃ cmd, Command_ inv = Ptr cmd ∧ valid_command cmd.
Proof.
  intros Hdec. unfold UnmarshalJSON in Hdec.
  destruct (unmarshal_Command doc (RawCommand inv0)) as [raw [e|]]; [done|].
  cbn [with_RawCommand RawCommand] in Hdec.
  pose proof in_range_0 as H0.
  repeat match type of Hdec with
    | (if String.eqb ?n ?t then _ else _) = _ => destruct (String.eqb n t) eqn:?
    end.
  all: try match type of Hdec with
    | decode_into ?i ?z = _ =>
        destruct (decode_into_result i z) as (cmd & Hc & _ & _ & Hv); [by simpl|];
        rewrite Hdec in Hc; simpl in Hc; by exists cmd
    end.
  - injection Hdec as <-. by exists Cmd.PrintCatalog.
  - injection Hdec as <-. by exists Cmd.PrintAccounts.
  - done.
Qed.

(** X13.  Whatever the stream holds, [Import] into a reachable store
    leaves a reachable store, whether it ends with an error or not: after
    any replay no account holds more than four checkouts or one book
    twice, and the two indices agree. *)
Theorem Import_reachable r l :
  reachable l →
  reachable (Import r l).2
  ∧ (∀ a, (length (CheckoutsByAccount a (Import r l).2) ≤ 4)%nat)
  ∧ (∀ a, NoDup (Checkout_BookID <$> CheckoutsByAccount a (Import r l).2))
  ∧ (∀ c, c ∈ CheckoutsByAccount (Checkout_AccountID c) (Import r l).2
          ↔ c ∈ CheckoutsByBook (Checkout_BookID c) (Import r l).2).
Proof.
  intros Hl.
  assert (Hr : reachable (Import r l).2).
  { revert l Hl. induction r as [|doc r IH]; intros l Hl; [done|].
    rewrite Import_cons.
    destruct (UnmarshalJSON doc zero_Invocation) as [[e|] inv] eqn:Hdec; [done|].
    destruct (UnmarshalJSON_command _ _ _ Hdec) as (cmd & Hc & Hv).
    pose proof (Exec_reachable inv l cmd Hc Hv Hl) as Hl'.
    destruct (Exec inv l) as [[e|] [inv' l']]; simpl in *; [done|]. by apply IH. }
  split; [done|]. apply reachable_Inv in Hr.
  unfold CheckoutsByAccount, CheckoutsByBook. split_and!.
  - apply (Inv_limit _ Hr).
  - intros a. by apply Inv_distinct_books.
  - intros c. rewrite (Inv_sync _ Hr). tauto.
Qed.

Lemma Import_reachable_witness :
  reachable
    (Import [JObject [("name", JString "RETURN_BOOK"); ("arguments", JNull)]] scenario).2.
Proof.
  refine (proj1 (Import_reachable
                   [JObject [("name", JString "RETURN_BOOK"); ("arguments", JNull)]]
                   scenario _)).
  exists scenario_ops. split; [unfold scenario_ops; valid_ops | unfold scenario; reflexivity].
Defined.

Lemma Import_app_eq r1 r2 l :
  Import (r1 ++ r2) l
  = match Import r1 l with
    | (None, l1) => Import r2 l1
    | failed => failed
    end.
Proof.
  revert l. induction r1 as [|doc r1 IH]; intros l; [done|].
  rewrite <- app_comm_cons, !Import_cons.
  destruct (UnmarshalJSON doc zero_Invocation) as [[e|] inv]; [done|].
  destruct (Exec inv l) as [[e|] [inv' l']]; [done|]. apply IH.
Qed.

(** X14.  Two streams in a row.  [Import] of a stream followed by
    another is [Import] of the first and, when that returns nil,
    [Import] of the second into the store it left; when the first fails,
    its error and its store are the result and nothing of the second is
    read. *)
Theorem Import_app r1 r2 l :
  Import (r1 ++ r2) l
  = match Import r1 l with
    | (None, l1) => Import r2 l1
    | failed => failed
    end.
Proof. apply Import_app_eq. Qed.

(** X15.  The first line that fails ends the replay.  If the lines
    before it are replayed without error and leave the store [l1], then a
    line that is not decoded gives the decoding error wrapped in "failed
    to read library state", a line whose execution fails gives the error
    of the store as it is, and in both cases the store returned is [l1]:
    the lines before stay applied, the failing line and the lines after it
    change nothing. *)
Theorem Import_stops r1 doc r2 l l1 :
  Import r1 l = (None, l1) →
  (∀ e inv, UnmarshalJSON doc zero_Invocation = (Some e, inv) →
     Import (r1 ++ doc :: r2) l
     = (Some (Wrapf "failed to read library state, %w" e), l1))
  ∧ (∀ e inv, UnmarshalJSON doc zero_Invocation = (None, inv) →
       (Exec inv l1).1 = Some e →
       Import (r1 ++ doc :: r2) l = (Some e, l1)).
Proof.
  intros H1. split.
  - intros e inv Hdec. rewrite Import_app_eq, H1, Import_cons. by rewrite Hdec.
  - intros e inv Hdec Hexec. rewrite Import_app_eq, H1, Import_cons, Hdec.
    pose proof (Exec_failure_keeps_store inv l1 e Hexec) as Hkeep.
    destruct (Exec inv l1) as [[e'|] [inv' l']]; simpl in *; congruence.
Qed.

Lemma Import_stops_witness :
  Import ([line_of (Cmd.AddBook 1 "Dune" 2)]
          ++ line_of (Cmd.AddBook 1 "Emma" 5) :: [line_of (Cmd.CreateAccount 10 "Ada")]) New
  = (Some (Errorf "book already exists" []), (AddBook 1 "Dune" 2 New).2).
Proof.
  refine (proj2 (Import_stops [line_of (Cmd.AddBook 1 "Dune" 2)]
                   (line_of (Cmd.AddBook 1 "Emma" 5))
                   [line_of (Cmd.CreateAccount 10 "Ada")] New (AddBook 1 "Dune" 2 New).2 _)
            (Errorf "book already exists" [])
            {| RawCommand := {| Name := "ADD_BOOK";
                                Arguments := Some (marshal_arguments (Cmd.AddBook 1 "Emma" 5)) |};
               Command_ := Ptr (Cmd.AddBook 1 "Emma" 5) |} _ _).
  - vm_compute. reflexivity.
  - vm_compute. reflexivity.
  - vm_compute. reflexivity.
Defined.

(** ** Encoding and decoding of the eight commands *)



(** X17.  Which commands need their arguments.  A PRINT_CATALOG or
    PRINT_ACCOUNTS record is accepted whatever its [arguments] member
    holds, and without one: the arguments are never decoded.  A record
    with one of the six other names and no [arguments] member is refused,
    the empty raw message not being a JSON text. *)
Theorem arguments_needed :
  (∀ name cmd,
     (name, cmd) ∈ [("PRINT_CATALOG", Cmd.PrintCatalog);
                    ("PRINT_ACCOUNTS", Cmd.PrintAccounts)] →
     (∀ arguments,
        (UnmarshalJSON (JObject [("name", JString name); ("arguments", arguments)])
           zero_Invocation).1 = None
        ∧ Command_ (UnmarshalJSON
                      (JObject [("name", JString name); ("arguments", arguments)])
                      zero_Invocation).2 = Ptr cmd)
     ∧ (UnmarshalJSON (JObject [("name", JString name)]) zero_Invocation).1 = None
     ∧ Command_ (UnmarshalJSON (JObject [("name", JString name)]) zero_Invocation).2
       = Ptr cmd)
  ∧ (∀ name zero,
       (name, zero) ∈ zero_commands →
       (UnmarshalJSON (JObject [("name", JString name)]) zero_Invocation).1
       = Some (SyntaxError "unexpected end of JSON input")).
Proof.
  split.
  - intros name cmd Hin.
    repeat (apply elem_of_cons in Hin as [[= -> ->] | Hin]);
      [| |by apply elem_of_nil in Hin]; by vm_compute.
  - intros name zero Hin. unfold zero_commands in Hin.
    repeat (apply elem_of_cons in Hin as [[= -> ->] | Hin]);
      [..|by apply elem_of_nil in Hin]; by vm_compute.
Qed.

Lemma arguments_needed_witness :
  (UnmarshalJSON (JObject [("name", JString "CHECKOUT_BOOK")]) zero_Invocation).1
  = Some (SyntaxError "unexpected end of JSON input").
Proof.
  refine (proj2 arguments_needed "CHECKOUT_BOOK" (Cmd.CheckoutBook 0 0) _).
  vm_compute. do 4 right. left.
Defined.





Lemma decode_members_saved {T} (fields : list (string * @setter T)) members v e :
  (decode_members fields members v (Some e)).2 = Some e.
Proof.
  revert v. induction members as [|[key value] members IH]; intros v; [done|].
  simpl. destruct (find_field fields key) as [set|]; [|apply IH].
  destruct (set value v) as [v' err]. apply IH.
Qed.

Lemma decode_members_cons {T} (fields : list (string * @setter T)) key value rest v saved :
  decode_members fields ((key, value) :: rest) v saved
  = match find_field fields key with
    | None => decode_members fields rest v saved
    | Some set =>
        let '(v', err) := set value v in
        decode_members fields rest v' (keep_first saved err)
    end.
Proof. done. Qed.

Lemma int_field_refuses {T} field (set : Z → T → T) value v :
  value ≠ JNull → (∀ z, value = JInt z → ¬ in_range z) →
  int_field field set value v = (v, Some (UnmarshalTypeError value field)).
Proof.
  intros Hnull Hint. destruct value; try done. simpl.
  destruct (fits_int z) eqn:Hz; [|done]. exfalso. apply (Hint z eq_refl).
  unfold fits_int in Hz. by apply andb_true_iff in Hz as [?%Z.leb_le ?%Z.leb_le].
Qed.

(** X19.  A value of the wrong type stops the replay.  When the first
    member of the [arguments] of a command is one of its integer fields
    and its value is neither null nor an integer that fits an [int] (a
    string, a fraction, a number past 2^63, an object), [Import] returns
    the type error of that value, wrapped, whatever members follow, and
    the command is not executed: the store is as it was. *)
Theorem Import_wrong_type name key value rest r l :
  (name, key) ∈ int_members →
  value ≠ JNull →
  (∀ z, value = JInt z → ¬ in_range z) →
  ∃ field,
    Import (JObject [("name", JString name);
                     ("arguments", JObject ((key, value) :: rest))] :: r) l
    = (Some (Wrapf "failed to read library state, %w" (UnmarshalTypeError value field)), l).
Proof.
  intros Hin Hnull Hint.
  assert (Hraw : ∀ c, unmarshal_Command
                        (JObject [("name", JString name);
                                  ("arguments", JObject ((key, value) :: rest))]) c
                      = ({| Name := name;
                            Arguments := Some (JObject ((key, value) :: rest)) |}, None))
    by done.
  cut (∃ field,
         (UnmarshalJSON (JObject [("name", JString name);
                                  ("arguments", JObject ((key, value) :: rest))])
            zero_Invocation).1
         = Some (UnmarshalTypeError value field)).
  { intros (field & Hdec). exists field. rewrite Import_cons.
    destruct (UnmarshalJSON _ _) as [err inv]. simpl in Hdec. by subst. }
  unfold UnmarshalJSON. rewrite Hraw. clear Hraw.
  unfold int_members in Hin.
  repeat (apply elem_of_cons in Hin as [[= -> ->] | Hin]);
    [..|by apply elem_of_nil in Hin];
    eexists;
    lazy - [decode_members int_field AddBook_fields Copies_fields CreateAccount_fields
            Pair_fields];
    rewrite decode_members_cons;
    lazy - [decode_members int_field];
    rewrite (int_field_refuses _ _ value _ Hnull Hint);
    cbv beta iota zeta delta [keep_first];
    match goal with
    | |- context [decode_members ?f ?m ?v (Some ?e)] =>
        pose proof (decode_members_saved f m v e) as Hs;
        destruct (decode_members f m v (Some e)) as [? ?]; simpl in Hs; subst
    end;
    repeat match goal with p : (_ * _)%type |- _ => destruct p end;
    reflexivity.
Qed.

Lemma Import_wrong_type_witness :
  ∃ field,
    Import (JObject [("name", JString "ADD_COPIES");
                     ("arguments", JObject [("id", JString "1"); ("count", JInt 2)])] :: [])
      scenario
    = (Some (Wrapf "failed to read library state, %w"
               (UnmarshalTypeError (JString "1") field)), scenario).
Proof.
  refine (Import_wrong_type "ADD_COPIES" "id" (JString "1") [("count", JInt 2)] []
            scenario _ _ _).
  - vm_compute. do 2 right. left.
  - discriminate.
  - discriminate.
Defined.

(** ** [Exec] and the invocation it is given *)

(** X20.  An executed CREATE_ACCOUNT cannot be encoded or executed
    again.  [Exec] of a CREATE_ACCOUNT command overwrites [inv.Command]
    with the struct value [CreateAccount{}], whether the account is
    created or not: [MarshalJSON] of that invocation then fails with
    "marshal: unknown command type", and a second [Exec] of it fails with
    "exec: unknown command type" and leaves the store alone.  [Exec] of
    any of the seven other commands leaves the invocation as it was. *)
Theorem Exec_CreateAccount_overwrites inv l :
  (∀ id name,
     Command_ inv = Ptr (Cmd.CreateAccount id name) →
     let inv' := (Exec inv l).2.1 in
     let l' := (Exec inv l).2.2 in
     (Exec inv l).1 = (CreateAccount id name l).1
     ∧ l' = (CreateAccount id name l).2
     ∧ Command_ inv' = CreateAccountValue
     ∧ (MarshalJSON inv').1
       = inr (Errorf "marshal: unknown command type, %T" [ArgT "library.CreateAccount"])
     ∧ Exec inv' l'
       = (Some (Errorf "exec: unknown command type, %T" [ArgT "library.CreateAccount"]),
          (inv', l')))
  ∧ (∀ cmd,
       Command_ inv = Ptr cmd →
       (∀ id name, cmd ≠ Cmd.CreateAccount id name) →
       (Exec inv l).2.1 = inv).
Proof.
  split.
  - intros id name Hc.
    assert (He : Exec inv l
                 = ((CreateAccount id name l).1,
                    (with_Command inv CreateAccountValue, (CreateAccount id name l).2))).
    { unfold Exec. rewrite Hc. by destruct (CreateAccount id name l). }
    rewrite He. simpl. split_and!; done.
  - intros cmd Hc Hne. unfold Exec. rewrite Hc.
    destruct cmd; simpl; try done;
      try match goal with |- context [let '(_, _) := ?r in _] => by destruct r end.
    by destruct (Hne ID Name0).
Qed.

Lemma Exec_CreateAccount_overwrites_witness :
  (MarshalJSON
     (Exec {| RawCommand := zero_Command; Command_ := Ptr (Cmd.CreateAccount 11 "Bob") |}
        scenario).2.1).1
  = inr (Errorf "marshal: unknown command type, %T" [ArgT "library.CreateAccount"]).
Proof.
  refine (proj1 (proj2 (proj2 (proj2
            (proj1 (Exec_CreateAccount_overwrites
                      {| RawCommand := zero_Command;
                         Command_ := Ptr (Cmd.CreateAccount 11 "Bob") |} scenario)
               11 "Bob" _))))).
  reflexivity.
Defined.

(** ** What [Export] writes *)



(** ** The narration *)

Lemma is_Some_write p sb : is_Some sb → is_Some (write p sb).
Proof. intros [ps ->]. by eexists. Qed.

Lemma EachBook_in_defined bs (fn : Book → builder → builder) sb :
  (∀ book sb, is_Some sb → is_Some (fn book sb)) →
  is_Some sb → is_Some (EachBook_in bs fn sb).
Proof.
  intros Hfn. unfold EachBook_in. revert sb.
  induction bs as [|b bs IH]; intros sb Hsb; [done|]. simpl. by apply IH, Hfn.
Qed.

(** X22.  [Exec] reads no field of a nil record in a reachable store.
    The narration looks books and accounts up again after the call, and
    PRINT_ACCOUNTS looks up the book of every checkout it lists; in a
    reachable store each of these lookups finds its record, for every
    command and every iteration order, so the text is always built. *)
Theorem Output_defined inv l bs acs :
  reachable l → is_Some (Output inv l bs acs).
Proof.
  intros HI%reachable_Inv. unfold Output.
  destruct (Command_ inv) as [|cmd|]; [by eexists| |by eexists].
  destruct cmd as [i n c|i c|i c|i n|a b|a b| |].
  - by destruct (AddBook i n c l).1.
  - unfold AddCopies, GetBook. destruct (books l !! i) as [book|] eqn:Hb; [|by eexists].
    destruct (c <? 0); simpl; [by rewrite Hb|]. by rewrite lookup_insert_eq.
  - unfold RemoveCopies, GetBook. destruct (books l !! i) as [book|] eqn:Hb; [|by eexists].
    destruct (c <? 0); simpl; [by rewrite Hb|].
    destruct (Book_Count book <? c); simpl; [by rewrite Hb|].
    destruct (_ <? c); simpl; [by rewrite Hb|]. by rewrite lookup_insert_eq.
  - by destruct (CreateAccount i n l).1.
  - unfold CheckoutBook, GetAccount, GetBook.
    destruct (accounts l !! a) as [account|] eqn:Ha; [|by eexists].
    destruct (books l !! b) as [book|] eqn:Hb; simpl; [|by rewrite Ha].
    destruct (4 <=? _); simpl; [by rewrite Ha, Hb|].
    destruct (existsb _ _); simpl; by rewrite Ha, Hb.
  - unfold ReturnBook, GetAccount, GetBook.
    destruct (accounts l !! a) as [account|] eqn:Ha; [|by eexists].
    destruct (books l !! b) as [book|] eqn:Hb; simpl; [|by rewrite Ha].
    destruct (negb _); simpl; by rewrite Ha, Hb.
  - apply EachBook_in_defined; [|by eexists].
    intros book sb Hsb. by repeat apply is_Some_write.
  - unfold EachAccount_in.
    assert (Hstart : is_Some (Some [WriteString (ln (ln "# Accounts"))])) by by eexists.
    revert Hstart. generalize (Some [WriteString (ln (ln "# Accounts"))]).
    induction acs as [|account acs IH]; intros sb Hsb; [done|]. simpl. apply IH.
    apply is_Some_write.
    assert (Hbooks : ∀ c, c ∈ CheckoutsByAccount (Account_ID account) l →
                          is_Some (GetBook (Checkout_BookID c) l)).
    { intros c Hc. by apply (Inv_by_account _ HI) in Hc as (_ & _ & ?). }
    revert Hbooks. generalize (CheckoutsByAccount (Account_ID account) l).
    intros cs Hcs.
    assert (Hsb' : is_Some (write (WriteString (ln "Checked Out Books:"))
                              (write (Fprintf (ln "## %s (%d)")
                                        [ValS (Account_Name account);
                                         ValD (Account_ID account)]) sb)))
      by by repeat apply is_Some_write.
    revert Hsb'. generalize (write (WriteString (ln "Checked Out Books:"))
                               (write (Fprintf (ln "## %s (%d)")
                                         [ValS (Account_Name account);
                                          ValD (Account_ID account)]) sb)).
    induction cs as [|c cs IHcs]; intros sb' Hsb'; [done|]. simpl. apply IHcs.
    + intros c' Hc'. apply Hcs. by right.
    + destruct (Hcs c ltac:(by left)) as [book ->]. by apply is_Some_write.
Qed.

Lemma Output_defined_witness :
  is_Some (Output {| RawCommand := zero_Command; Command_ := Ptr Cmd.PrintAccounts |}
             four_checkouts [] [{| Account_ID := 10; Account_Name := "Ada" |}]).
Proof.
  refine (Output_defined _ four_checkouts [] [{| Account_ID := 10; Account_Name := "Ada" |}] _).
  exists four_checkouts_ops.
  split; [unfold four_checkouts_ops; valid_ops | unfold four_checkouts; reflexivity].
Defined.

Lemma write_well_formed p sb :
  well_formed p →
  (∀ ps, sb = Some ps → Forall well_formed ps) →
  ∀ ps, write p sb = Some ps → Forall well_formed ps.
Proof.
  intros Hp Hsb ps. destruct sb as [ps0|]; [|done]. simpl. intros [= <-].
  apply Forall_app. split; [by apply Hsb | by constructor].
Qed.

Lemma foldl_well_formed {A} (f : builder → A → builder) (xs : list A) sb :
  (∀ x sb, (∀ ps, sb = Some ps → Forall well_formed ps) →
           ∀ ps, f sb x = Some ps → Forall well_formed ps) →
  (∀ ps, sb = Some ps → Forall well_formed ps) →
  ∀ ps, foldl f sb xs = Some ps → Forall well_formed ps.
Proof.
  intros Hf. revert sb. induction xs as [|x xs IH]; intros sb Hsb; [done|].
  simpl. by apply IH, Hf.
Qed.

(** X23.  Operands and verbs of the narration.  In every store and for
    every command, each formatted write of the narration has as many
    operands as its format has verbs, with one exception: for ADD_COPIES
    and REMOVE_COPIES on a book that is not in the catalog the format has
    two verbs, the count and the id, and the only operand is the id, which
    is printed as the count.  The five-operand write of the last error
    branch of RETURN_BOOK is never reached. *)
Theorem Output_operands inv l bs acs :
  (∀ ps,
     Output inv l bs acs = Some ps →
     (∀ id count,
        Command_ inv = Ptr (Cmd.AddCopies id count)
        ∨ Command_ inv = Ptr (Cmd.RemoveCopies id count) →
        is_Some (GetBook id l)) →
     Forall well_formed ps)
  ∧ (∀ id count,
       GetBook id l = None →
       (Command_ inv = Ptr (Cmd.AddCopies id count) →
        Output inv l bs acs
        = Some [Fprintf "could not add %d copies, book (%d) does not exist" [ValD id]])
       ∧ (Command_ inv = Ptr (Cmd.RemoveCopies id count) →
          Output inv l bs acs
          = Some [Fprintf "could not remove %d copies, book (%d) does not exist"
                    [ValD id]])
       ∧ ¬ well_formed
             (Fprintf "could not add %d copies, book (%d) does not exist" [ValD id])
       ∧ ¬ well_formed
             (Fprintf "could not remove %d copies, book (%d) does not exist" [ValD id])).
Proof.
  split.
  - intros ps Hout Hbook. unfold Output in Hout.
    destruct (Command_ inv) as [|cmd|]; [by injection Hout as <-| |by injection Hout as <-].
    destruct cmd as [i n c|i c|i c|i n|a b|a b| |].
    + destruct (AddBook i n c l).1; injection Hout as <-; by repeat constructor.
    + destruct (Hbook i c ltac:(by left)) as [book Hb]. unfold GetBook in *.
      unfold AddCopies in Hout. rewrite Hb in Hout.
      destruct (c <? 0); simpl in Hout.
      * rewrite Hb in Hout. injection Hout as <-. by repeat constructor.
      * rewrite lookup_insert_eq in Hout. injection Hout as <-. by repeat constructor.
    + destruct (Hbook i c ltac:(by right)) as [book Hb]. unfold GetBook in *.
      unfold RemoveCopies in Hout. rewrite Hb in Hout.
      destruct (c <? 0); simpl in Hout;
        [rewrite Hb in Hout; injection Hout as <-; by repeat constructor|].
      destruct (Book_Count book <? c); simpl in Hout;
        [rewrite Hb in Hout; injection Hout as <-; by repeat constructor|].
      destruct (_ <? c); simpl in Hout;
        [rewrite Hb in Hout; injection Hout as <-; by repeat constructor|].
      rewrite lookup_insert_eq in Hout. injection Hout as <-. by repeat constructor.
    + destruct (CreateAccount i n l).1; injection Hout as <-; by repeat constructor.
    + unfold CheckoutBook, GetAccount, GetBook in Hout.
      destruct (accounts l !! a) as [account|] eqn:Ha;
        [|injection Hout as <-; by repeat constructor].
      destruct (books l !! b) as [book|] eqn:Hb; simpl in Hout;
        [|rewrite Ha in Hout; injection Hout as <-; by repeat constructor].
      destruct (4 <=? _); simpl in Hout;
        [rewrite Ha, Hb in Hout; injection Hout as <-; by repeat constructor|].
      destruct (existsb _ _); simpl in Hout;
        rewrite Ha, Hb in Hout; injection Hout as <-; by repeat constructor.
    + unfold ReturnBook, GetAccount, GetBook in Hout.
      destruct (accounts l !! a) as [account|] eqn:Ha;
        [|injection Hout as <-; by repeat constructor].
      destruct (books l !! b) as [book|] eqn:Hb; simpl in Hout;
        [|rewrite Ha in Hout; injection Hout as <-; by repeat constructor].
      destruct (negb _); simpl in Hout;
        rewrite Ha, Hb in Hout; injection Hout as <-; by repeat constructor.
    + revert ps Hout. unfold EachBook_in.
      apply (foldl_well_formed (λ sb book, _)).
      * intros book sb Hsb. by repeat apply write_well_formed.
      * intros ps [= <-]. by repeat constructor.
    + revert ps Hout. unfold EachAccount_in.
      apply (foldl_well_formed (λ sb account, _)).
      * intros account sb Hsb. apply write_well_formed; [done|].
        apply (foldl_well_formed (λ sb checkout, _)).
        -- intros c sb' Hsb'. destruct (GetBook (Checkout_BookID c) l); [|done].
           by apply write_well_formed.
        -- by repeat apply write_well_formed.
      * intros ps [= <-]. by repeat constructor.
  - intros id count Hb. unfold GetBook in Hb. unfold Output. split_and!.
    + intros ->. unfold AddCopies. by rewrite Hb.
    + intros ->. unfold RemoveCopies. by rewrite Hb.
    + simpl. discriminate.
    + simpl. discriminate.
Qed.

Lemma Output_operands_witness :
  Output {| RawCommand := zero_Command; Command_ := Ptr (Cmd.AddCopies 99 3) |}
    scenario [] []
  = Some [Fprintf "could not add %d copies, book (%d) does not exist" [ValD 99]].
Proof.
  refine (proj1 (proj2 (Output_operands
                          {| RawCommand := zero_Command;
                             Command_ := Ptr (Cmd.AddCopies 99 3) |} scenario [] [])
                   99 3 _) _).
  - vm_compute. reflexivity.
  - reflexivity.
Defined.
